(** * Logical sessions: the server-session pool and the session handle

    A shallow embedding of [pymongo/client_session.py]: the classes
    [SessionOptions], [ClientSession], [_ServerSession] and
    [_ServerSessionPool], and the properties of the pool and of the
    handle life cycle.

    Modelling choices.
    - Python objects are mutable and held by reference.  A [_ServerSession]
      lives in a store ([heap]) and is named by its address; the pool (a
      [collections.deque]) is the list of the addresses it holds, leftmost
      element first.  [ClientSession] objects live in a second store.
    - [monotonic.time()] and [uuid.uuid4()] are effects.  The world carries
      the sequence of values each of them will produce and the number of
      values consumed so far, so every call reads a fresh value, as in the
      source.
    - In the methods a time is a rational number of seconds and arithmetic
      on it is exact.  The one float operation of the module, the
      subtraction in [timed_out], is given with its rounding in [Binary64]
      and [timed_out_binary64], for the statements that depend on it.
    - The methods are computations in a state-and-exception monad.  A
      [while] loop runs on fuel; running out of it is the outcome
      [Diverges], which no theorem below allows. *)

From Stdlib Require Import QArith Lqa Lia List String Bool Arith PeanoNat NArith.
From Stdlib Require Import Sorted.
From Stdlib Require Import ZArith.
From Stdlib Require SpecFloat.
Import ListNotations.

Local Open Scope Q_scope.

(** ** Values *)

Definition Time := Q.
Definition Minutes := Q.
Definition loc := nat.

(** [bson.binary.Binary(data, subtype)]; the sixteen bytes of a UUID are
    kept as the 128-bit number they spell. *)
Record Binary := mkBinary { bin_data : N; bin_subtype : Z }.

(** A BSON document such as [{'id': Binary(...)}]. *)
Definition Document := list (string * Binary).

(** The fields of a [_ServerSession] object. *)
Record ServerSessionObj := mkServerSession {
  session_id : Document;
  last_use : Time
}.

Record SessionOptions := mkSessionOptions {
  _causally_consistent_reads : bool
}.

(** [SessionOptions.__init__(causally_consistent_reads=False)] *)
Definition SessionOptions_default : SessionOptions :=
  mkSessionOptions false.

Definition causally_consistent_reads (self : SessionOptions) : bool :=
  _causally_consistent_reads self.

(** Modelled from the spec: the [MongoClient] a session was created from
    ([mongo_client.py] is not part of the sources at hand).  Of this
    collaborator the session core only needs the session timeout it passes
    to the locked release path (section 6, [releaseSession(record,
    timeoutMinutes)]). *)
Record MongoClient := mkMongoClient {
  client_session_timeout_minutes : Minutes
}.

(** The set handed to [ClientSession.__init__]; never read by this module. *)
Definition AuthSet := list string.

(** The fields of a [ClientSession] object; [None] is Python's [None]. *)
Record ClientSessionObj := mkClientSession {
  _client : MongoClient;
  _server_session : option loc;
  _options : SessionOptions;
  _authset : AuthSet
}.

(** ** The world *)

Record World := mkWorld {
  clock : nat -> Time;            (* the readings monotonic.time() yields *)
  ticks : nat;                    (* how many of them have been read *)
  uuids : nat -> N;               (* the values uuid.uuid4().bytes yields *)
  drawn : nat;                    (* how many of them have been drawn *)
  heap : loc -> ServerSessionObj; (* the _ServerSession objects *)
  next_loc : loc;                 (* first address not yet allocated *)
  sessions : loc -> ClientSessionObj; (* the ClientSession objects *)
  pool : list loc                 (* the deque, leftmost first *)
}.

Definition upd {A : Type} (f : loc -> A) (a : loc) (v : A) : loc -> A :=
  fun x => if Nat.eqb x a then v else f x.

Definition set_ticks (w : World) (n : nat) : World :=
  mkWorld (clock w) n (uuids w) (drawn w) (heap w) (next_loc w)
          (sessions w) (pool w).

Definition set_drawn (w : World) (n : nat) : World :=
  mkWorld (clock w) (ticks w) (uuids w) n (heap w) (next_loc w)
          (sessions w) (pool w).

Definition set_heap (w : World) (h : loc -> ServerSessionObj) : World :=
  mkWorld (clock w) (ticks w) (uuids w) (drawn w) h (next_loc w)
          (sessions w) (pool w).

Definition set_next_loc (w : World) (n : loc) : World :=
  mkWorld (clock w) (ticks w) (uuids w) (drawn w) (heap w) n
          (sessions w) (pool w).

Definition set_sessions (w : World) (s : loc -> ClientSessionObj) : World :=
  mkWorld (clock w) (ticks w) (uuids w) (drawn w) (heap w) (next_loc w)
          s (pool w).

Definition set_pool (w : World) (p : list loc) : World :=
  mkWorld (clock w) (ticks w) (uuids w) (drawn w) (heap w) (next_loc w)
          (sessions w) p.

(** ** The monad *)

Inductive Exn : Type :=
| InvalidOperation (msg : string)
| IndexError (msg : string).

Inductive Outcome (A : Type) : Type :=
| Returns (a : A) (w : World)
| Raises (e : Exn) (w : World)
| Diverges.

Arguments Returns {A} a w.
Arguments Raises {A} e w.
Arguments Diverges {A}.

Definition M (A : Type) : Type := World -> Outcome A.

Definition ret {A : Type} (a : A) : M A := fun w => Returns a w.

Definition bind {A B : Type} (c : M A) (k : A -> M B) : M B :=
  fun w =>
    match c w with
    | Returns a w' => k a w'
    | Raises e w' => Raises e w'
    | Diverges => Diverges
    end.

Definition raise {A : Type} (e : Exn) : M A := fun w => Raises e w.

Definition diverge {A : Type} : M A := fun _ => Diverges.

Declare Scope session_scope.
Delimit Scope session_scope with session.

Notation "x <- c ;; k" := (bind c (fun x => k))
  (at level 100, c at next level, right associativity) : session_scope.
Notation "c ;; k" := (bind c (fun _ => k))
  (at level 100, right associativity) : session_scope.

Local Open Scope session_scope.

(** [monotonic.time()] *)
Definition monotonic_time : M Time :=
  fun w => Returns (clock w (ticks w)) (set_ticks w (S (ticks w))).

(** [uuid.uuid4().bytes] *)
Definition uuid4_bytes : M N :=
  fun w => Returns (uuids w (drawn w)) (set_drawn w (S (drawn w))).

(** Reading the fields of the object at an address. *)
Definition deref (a : loc) : M ServerSessionObj :=
  fun w => Returns (heap w a) w.

(** Assigning the fields of the object at an address. *)
Definition assign (a : loc) (o : ServerSessionObj) : M unit :=
  fun w => Returns tt (set_heap w (upd (heap w) a o)).

(** Allocating a new object. *)
Definition alloc (o : ServerSessionObj) : M loc :=
  fun w =>
    Returns (next_loc w)
      (set_next_loc (set_heap w (upd (heap w) (next_loc w) o))
                    (S (next_loc w))).

Definition Qgtb (x y : Q) : bool := negb (Qle_bool x y).

(** ** [_ServerSession] *)

Module _ServerSession.

(** [_ServerSession()] *)
Definition __init__ : M loc :=
  u <- uuid4_bytes ;;
  t <- monotonic_time ;;
  alloc (mkServerSession [("id"%string, mkBinary u 4)] t).

Definition timed_out (self : loc) (session_timeout_minutes : Minutes)
  : M bool :=
  now <- monotonic_time ;;
  o <- deref self ;;
  let idle_seconds := now - last_use o in
  ret (Qgtb idle_seconds ((session_timeout_minutes - 1) * 60)).

Definition use_lsid (self : loc) : M Document :=
  now <- monotonic_time ;;
  o <- deref self ;;
  assign self (mkServerSession (session_id o) now) ;;
  o' <- deref self ;;
  ret (session_id o').

End _ServerSession.

(** ** [collections.deque] *)

Module deque.

(** The truth value of the deque, as tested by [while self]. *)
Definition __bool__ : M bool :=
  fun w => Returns (match pool w with [] => false | _ => true end) w.

Definition popleft : M loc :=
  fun w =>
    match pool w with
    | [] => Raises (IndexError "pop from an empty deque") w
    | s :: rest => Returns s (set_pool w rest)
    end.

Definition pop : M loc :=
  fun w =>
    match rev (pool w) with
    | [] => Raises (IndexError "pop from an empty deque") w
    | s :: rest => Returns s (set_pool w (rev rest))
    end.

(** [self[-1]] *)
Definition last_item : M loc :=
  fun w =>
    match rev (pool w) with
    | [] => Raises (IndexError "deque index out of range") w
    | s :: _ => Returns s w
    end.

Definition appendleft (s : loc) : M unit :=
  fun w => Returns tt (set_pool w (s :: pool w)).

Definition __len__ : M nat :=
  fun w => Returns (List.length (pool w)) w.

End deque.

(** ** [_ServerSessionPool] *)

Module _ServerSessionPool.

(** The loop of [_clear_stale]; each turn that does not leave the loop
    pops one element, so [len(self) + 1] turns always suffice. *)
Fixpoint _clear_stale_loop (fuel : nat) (session_timeout_minutes : Minutes)
  : M unit :=
  match fuel with
  | O => diverge
  | S fuel' =>
      nonempty <- deque.__bool__ ;;
      if nonempty then
        s <- deque.last_item ;;
        stale <- _ServerSession.timed_out s session_timeout_minutes ;;
        if stale then
          (deque.pop ;;
           _clear_stale_loop fuel' session_timeout_minutes)
        else
          ret tt
      else
        ret tt
  end.

Definition _clear_stale (session_timeout_minutes : Minutes) : M unit :=
  n <- deque.__len__ ;;
  _clear_stale_loop (S n) session_timeout_minutes.

(** The loop of [get_server_session]; [Some s] is [return s] from inside
    the loop, [None] is the loop running to its end.  Each turn pops one
    element, so here too [len(self) + 1] turns always suffice. *)
Fixpoint get_loop (fuel : nat) (session_timeout_minutes : Minutes)
  : M (option loc) :=
  match fuel with
  | O => diverge
  | S fuel' =>
      nonempty <- deque.__bool__ ;;
      if nonempty then
        s <- deque.popleft ;;
        stale <- _ServerSession.timed_out s session_timeout_minutes ;;
        if negb stale then
          ret (Some s)
        else
          get_loop fuel' session_timeout_minutes
      else
        ret None
  end.

Definition get_server_session (session_timeout_minutes : Minutes)
  : M loc :=
  _clear_stale session_timeout_minutes ;;
  n <- deque.__len__ ;;
  r <- get_loop (S n) session_timeout_minutes ;;
  match r with
  | Some s => ret s
  | None => _ServerSession.__init__
  end.

Definition return_server_session (server_session : loc)
    (session_timeout_minutes : Minutes) : M unit :=
  _clear_stale session_timeout_minutes ;;
  stale <- _ServerSession.timed_out server_session
             session_timeout_minutes ;;
  if negb stale then deque.appendleft server_session else ret tt.

Definition return_server_session_no_lock (server_session : loc)
  : M unit :=
  deque.appendleft server_session.

End _ServerSessionPool.

(** ** [MongoClient._return_server_session] *)

(** Modelled from the spec: [MongoClient._return_server_session(
    server_session, lock)], which [ClientSession._end_session] calls and
    whose source is not at hand.  Section 4.4 says an explicit end goes
    through the locked release path and an end from a finaliser through the
    lock-free one; section 6 gives the two entry points
    [releaseSession(record, timeoutMinutes)] and
    [releaseSessionNoLock(record)]. *)
Definition _return_server_session (client : MongoClient)
    (server_session : loc) (lock : bool) : M unit :=
  if lock then
    _ServerSessionPool.return_server_session server_session
      (client_session_timeout_minutes client)
  else
    _ServerSessionPool.return_server_session_no_lock server_session.

(** ** [ClientSession] *)

Module ClientSession.

Definition self_obj (self : loc) : M ClientSessionObj :=
  fun w => Returns (sessions w self) w.

Definition self_assign (self : loc) (o : ClientSessionObj) : M unit :=
  fun w => Returns tt (set_sessions w (upd (sessions w) self o)).

(** [ClientSession.__init__]: the handle at [self] is given a client, a
    [_ServerSession], options and a set. *)
Definition __init__ (self : loc) (client : MongoClient)
    (server_session : loc) (options : SessionOptions) (authset : AuthSet)
  : M unit :=
  self_assign self
    (mkClientSession client (Some server_session) options authset).

(** The property [client]. *)
Definition client (self : loc) : M MongoClient :=
  o <- self_obj self ;;
  ret (_client o).

(** The property [options]. *)
Definition options (self : loc) : M SessionOptions :=
  o <- self_obj self ;;
  ret (_options o).

Definition _end_session (self : loc) (lock : bool) : M unit :=
  o <- self_obj self ;;
  match _server_session o with
  | Some server_session =>
      c <- client self ;;
      _return_server_session c server_session lock ;;
      o' <- self_obj self ;;
      self_assign self
        (mkClientSession (_client o') None (_options o') (_authset o'))
  | None => ret tt
  end.

Definition end_session (self : loc) : M unit :=
  _end_session self true.

Definition __enter__ (self : loc) : M loc := ret self.

Definition __exit__ (self : loc) : M unit := end_session self.

(** The property [session_id]. *)
Definition session_id (self : loc) : M Document :=
  o <- self_obj self ;;
  match _server_session o with
  | None => raise (InvalidOperation "Cannot use ended session")
  | Some server_session =>
      s <- deref server_session ;;
      ret (session_id s)
  end.

(** The property [has_ended]. *)
Definition has_ended (self : loc) : M bool :=
  o <- self_obj self ;;
  ret (match _server_session o with None => true | Some _ => false end).

Definition _use_lsid (self : loc) : M Document :=
  o <- self_obj self ;;
  match _server_session o with
  | None => raise (InvalidOperation "Cannot use ended session")
  | Some server_session => _ServerSession.use_lsid server_session
  end.

End ClientSession.

(** ** Vocabulary of the statements *)

(** The verdict of [timed_out] on the object at [s] when the clock reading
    it takes is the [n]-th one. *)
Definition stale_at (clk : nat -> Time) (h : loc -> ServerSessionObj)
    (m : Minutes) (n : nat) (s : loc) : bool :=
  Qgtb (clk n - last_use (h s)) ((m - 1) * 60).

(** Every record of [l] is found stale when the records are examined in
    order, the first one at reading [n], each at the reading after. *)
Fixpoint stale_run (clk : nat -> Time) (h : loc -> ServerSessionObj)
    (m : Minutes) (n : nat) (l : list loc) : bool :=
  match l with
  | [] => true
  | s :: l' => stale_at clk h m n s && stale_run clk h m (S n) l'
  end.

(** What the loop of [_clear_stale] computes, on the deque read from its
    right end: the records left (rightmost first) and the number of clock
    readings taken once the loop is over. *)
Fixpoint sweep (clk : nat -> Time) (h : loc -> ServerSessionObj)
    (m : Minutes) (n : nat) (rightmost_first : list loc)
  : list loc * nat :=
  match rightmost_first with
  | [] => ([], n)
  | s :: rest =>
      if stale_at clk h m n s then sweep clk h m (S n) rest
      else (rightmost_first, S n)
  end.

(** What the loop of [get_server_session] computes: the record it returns
    from inside the loop if any, the records left and the number of clock
    readings taken. *)
Fixpoint scan (clk : nat -> Time) (h : loc -> ServerSessionObj)
    (m : Minutes) (n : nat) (leftmost_first : list loc)
  : option loc * list loc * nat :=
  match leftmost_first with
  | [] => (None, [], n)
  | s :: rest =>
      if stale_at clk h m n s then scan clk h m (S n) rest
      else (Some s, rest, S n)
  end.

(** The state in which the sweep from the right leaves the deque [kept]:
    either nothing is left, or its rightmost record was examined at
    reading [n0] and found not stale; [n1] is the next reading. *)
Definition sweep_stops (clk : nat -> Time) (h : loc -> ServerSessionObj)
    (m : Minutes) (kept : list loc) (n0 n1 : nat) : Prop :=
  (kept = [] /\ n1 = n0) \/
  (exists front s, kept = front ++ [s] /\
                   stale_at clk h m n0 s = false /\ n1 = S n0).

(** The object [_ServerSession()] builds from the [d]-th UUID and the
    [n]-th clock reading of the world. *)
Definition minted (w : World) (d n : nat) : ServerSessionObj :=
  mkServerSession [("id"%string, mkBinary (uuids w d) 4)] (clock w n).

(** The world after [_ServerSession()] ran in [w]. *)
Definition after_mint (w : World) : World :=
  mkWorld (clock w) (S (ticks w)) (uuids w) (S (drawn w))
          (upd (heap w) (next_loc w) (minted w (drawn w) (ticks w)))
          (S (next_loc w)) (sessions w) (pool w).

(** The clock never runs backwards. *)
Definition monotone (clk : nat -> Time) : Prop :=
  forall i j, (i <= j)%nat -> clk i <= clk j.

(** A [ClientSession] object after its record was given back. *)
Definition ended (o : ClientSessionObj) : ClientSessionObj :=
  mkClientSession (_client o) None (_options o) (_authset o).

(** No record of [l] is found stale at any of the readings [lo], ...,
    [hi - 1]. *)
Definition fresh_between (clk : nat -> Time) (h : loc -> ServerSessionObj)
    (m : Minutes) (lo hi : nat) (l : list loc) : Prop :=
  forall s n, In s l -> (lo <= n < hi)%nat -> stale_at clk h m n s = false.

(** With a timeout of one minute some time has passed between [t0] and
    [t]; with a shorter one, [t] is at least not before [t0]. *)
Definition elapsed_enough (m : Minutes) (t0 t : Time) : Prop :=
  (m == 1 /\ t0 < t) \/ (m < 1 /\ t0 <= t).

(** The end of life of a handle: [end_session()] when it is explicit,
    [_end_session(lock=False)] when it comes from a finaliser. *)
Definition end_of_life (explicit : bool) (self : loc) : M unit :=
  if explicit then ClientSession.end_session self
  else ClientSession._end_session self false.

(** ** The subtraction of [timed_out], as Python computes it *)

(** A Python float is an IEEE 754 binary64 number.  Every finite one is a
    whole multiple of [2 ^ -1074], has at most 53 significant bits and is
    below [2 ^ 1024] in size; it is kept here as that multiple, a [Z]. *)
Module Binary64.

Local Open Scope Z_scope.

(** [m * 2 ^ e], for [e >= -1074]. *)
Definition double_of (m e : Z) : Z := m * 2 ^ (e + 1074).

(** The whole number [k]. *)
Definition of_int (k : Z) : Z := k * 2 ^ 1074.

(** [n] is a binary64 number. *)
Definition representable (n : Z) : bool :=
  (Z.abs n <? 2 ^ 2098) &&
  (n mod 2 ^ Z.max 0 (Z.log2 (Z.abs n) - 52) =? 0).

(** The whole number nearest to [n / 2 ^ s], the even one of the two when
    [n / 2 ^ s] lies half way. *)
Definition nearest_even (n s : Z) : Z :=
  let d := 2 ^ s in
  let q := n / d in
  let r := n mod d in
  if 2 * r <? d then q
  else if d <? 2 * r then q + 1
  else if Z.even q then q else q + 1.

(** [n] rounded to 53 significant bits, to nearest, ties to even. *)
Definition round53 (n : Z) : Z :=
  let s := Z.log2 (Z.abs n) - 52 in
  if s <=? 0 then n else nearest_even n s * 2 ^ s.

(** What an operation on finite numbers gives. *)
Inductive float64 : Type :=
| Finite (n : Z)
| Infinity (negative : bool).

(** [x - y] on floats: the exact difference, rounded; a result of size
    [2 ^ 1024] or more is an infinity. *)
Definition sub (x y : Z) : float64 :=
  let r := round53 (x - y) in
  if 2 ^ 2098 <=? Z.abs r then Infinity (r <? 0) else Finite r.

(** [x > k] for a float [x] and an [int] [k]; Python compares the two
    exactly. *)
Definition gt_int (x : float64) (k : Z) : bool :=
  match x with
  | Finite n => of_int k <? n
  | Infinity negative => negb negative
  end.

(** The same numbers in the library's specification of IEEE 754. *)
Definition of_spec (x : SpecFloat.spec_float) : option float64 :=
  match x with
  | SpecFloat.S754_zero _ => Some (Finite 0)
  | SpecFloat.S754_infinity s => Some (Infinity s)
  | SpecFloat.S754_nan => None
  | SpecFloat.S754_finite s m e =>
      Some (Finite (double_of (if s then Z.neg m else Z.pos m) e))
  end.

Definition spec_of (m e : Z) : SpecFloat.spec_float :=
  match m with
  | Z0 => SpecFloat.S754_zero false
  | Zpos p => SpecFloat.S754_finite false p e
  | Zneg p => SpecFloat.S754_finite true p e
  end.

(** The library's binary64 subtraction of [m1 * 2 ^ e1] and
    [m2 * 2 ^ e2]. *)
Definition spec_sub (m1 e1 m2 e2 : Z) : option float64 :=
  of_spec (SpecFloat.SFsub 53 1024 (spec_of m1 e1) (spec_of m2 e2)).

End Binary64.

(** [_ServerSession.timed_out] on floats: [now] is what [monotonic.time()]
    returned, [last_use] is [self.last_use], and the timeout is an [int]
    number of minutes. *)
Definition timed_out_binary64 (now last_use : Z)
    (session_timeout_minutes : Z) : bool :=
  let idle_seconds := Binary64.sub now last_use in
  Binary64.gt_int idle_seconds ((session_timeout_minutes - 1) * 60)%Z.

(** The double nearest to [0.2] and the double nearest to [1740.2]. *)
Definition double_0_2 : Z := Binary64.double_of 7205759403792794 (-55).
Definition double_1740_2 : Z := Binary64.double_of 7653480538623181 (-42).

(** ** Calls from outside *)

(** The methods of the module, as a caller can invoke them. *)
Inductive Call : Type :=
| call_new_server_session
| call_timed_out (s : loc) (m : Minutes)
| call_use_lsid (s : loc)
| call_get_server_session (m : Minutes)
| call_return_server_session (s : loc) (m : Minutes)
| call_return_server_session_no_lock (s : loc)
| call_clear_stale (m : Minutes)
| call_init (self : loc) (c : MongoClient) (s : loc) (o : SessionOptions)
            (a : AuthSet)
| call_end_session (self : loc)
| call__end_session (self : loc) (lock : bool)
| call_enter (self : loc)
| call_exit (self : loc)
| call_client (self : loc)
| call_options (self : loc)
| call_session_id (self : loc)
| call_has_ended (self : loc)
| call__use_lsid (self : loc).

(** A computation run for what it does to the world. *)
Definition forget {A : Type} (c : M A) : M unit := (c ;; ret tt).

Definition perform (c : Call) : M unit :=
  match c with
  | call_new_server_session => forget _ServerSession.__init__
  | call_timed_out s m => forget (_ServerSession.timed_out s m)
  | call_use_lsid s => forget (_ServerSession.use_lsid s)
  | call_get_server_session m =>
      forget (_ServerSessionPool.get_server_session m)
  | call_return_server_session s m =>
      _ServerSessionPool.return_server_session s m
  | call_return_server_session_no_lock s =>
      _ServerSessionPool.return_server_session_no_lock s
  | call_clear_stale m => _ServerSessionPool._clear_stale m
  | call_init self c s o a => ClientSession.__init__ self c s o a
  | call_end_session self => ClientSession.end_session self
  | call__end_session self lock => ClientSession._end_session self lock
  | call_enter self => forget (ClientSession.__enter__ self)
  | call_exit self => ClientSession.__exit__ self
  | call_client self => forget (ClientSession.client self)
  | call_options self => forget (ClientSession.options self)
  | call_session_id self => forget (ClientSession.session_id self)
  | call_has_ended self => forget (ClientSession.has_ended self)
  | call__use_lsid self => forget (ClientSession._use_lsid self)
  end.

(** A sequence of calls, each made in the world the one before left,
    whether it returned or raised; [None] when one of them does not end. *)
Fixpoint perform_all (cs : list Call) (w : World) : option World :=
  match cs with
  | [] => Some w
  | c :: cs' =>
      match perform c w with
      | Returns _ w' => perform_all cs' w'
      | Raises _ w' => perform_all cs' w'
      | Diverges => None
      end
  end.

(** The call runs [ClientSession.__init__] on the handle [self]. *)
Definition initialises (self : loc) (c : Call) : bool :=
  match c with
  | call_init self' _ _ _ _ => Nat.eqb self' self
  | _ => false
  end.

(** The statement [with self as v: body(v)], by the rules of the language:
    [__enter__] runs, then the body with what [__enter__] returned;
    [__exit__] runs on every way out of the body, and as it returns [None]
    an exception of the body goes on to the caller. *)
Definition with_session {A : Type} (self : loc) (body : loc -> M A)
  : M A :=
  fun w =>
    match ClientSession.__enter__ self w with
    | Returns v w1 =>
        match body v w1 with
        | Returns a w2 => (ClientSession.__exit__ self ;; ret a) w2
        | Raises e w2 => (ClientSession.__exit__ self ;; raise e) w2
        | Diverges => Diverges
        end
    | Raises e w1 => Raises e w1
    | Diverges => Diverges
    end.

(** ** Invariants *)

(** The [last_use] of every record that exists is a reading the clock has
    already given. *)
Definition timestamps_ok (w : World) : Prop :=
  forall a, (a < next_loc w)%nat ->
    exists k, (k < ticks w)%nat /\ last_use (heap w a) = clock w k.

(** What a call may do to the records between the world [w] before it and
    the world [w'] after it: the clock is the same one and further read;
    a record that existed keeps its [session_id], and its [last_use] is as
    before or a reading taken meanwhile; a record that came to exist
    carries a reading taken meanwhile. *)
Definition advances (w w' : World) : Prop :=
  clock w' = clock w /\
  (ticks w <= ticks w')%nat /\
  (next_loc w <= next_loc w')%nat /\
  (forall a, (a < next_loc w)%nat ->
     session_id (heap w' a) = session_id (heap w a) /\
     (last_use (heap w' a) = last_use (heap w a) \/
      exists k, (ticks w <= k < ticks w')%nat /\
                last_use (heap w' a) = clock w k)) /\
  (forall a, (next_loc w <= a < next_loc w')%nat ->
     exists k, (ticks w <= k < ticks w')%nat /\
               last_use (heap w' a) = clock w k).

(** The handle [c] holds the record [s]. *)
Definition holds (w : World) (c s : loc) : Prop :=
  _server_session (sessions w c) = Some s.

(** Every record has at most one owner: the pool holds existing records,
    each once, none of them held by a handle; a handle holds an existing
    record, and no two handles hold the same one. *)
Definition ownership (w : World) : Prop :=
  NoDup (pool w) /\
  (forall s, In s (pool w) ->
             (s < next_loc w)%nat /\ forall c, ~ holds w c s) /\
  (forall c s, holds w c s -> (s < next_loc w)%nat) /\
  (forall c c' s, holds w c s -> holds w c' s -> c = c').


(** ** Sample worlds *)

Definition sample_obj (u : N) (t : Time) : ServerSessionObj :=
  mkServerSession [("id"%string, mkBinary u 4)] t.

Definition sample_session (s : option loc) : ClientSessionObj :=
  mkClientSession (mkMongoClient 30) s SessionOptions_default [].

(** The clock that reads [5 * (n + 1)] seconds at reading [n]. *)
Definition ramp (n : nat) : Time := inject_Z (5 * (Z.of_nat n + 1)).

(** The clock that stands still at second [5]. *)
Definition still (n : nat) : Time := 5.

(** A world with the given clock and pool, where every record was last
    used at second [0], the records [0] to [3] exist and session [0] holds
    record [3]. *)
Definition sample_world (clk : nat -> Time) (p : list loc) : World :=
  mkWorld clk 0%nat
          (fun n => N.of_nat n) 0%nat
          (fun a => sample_obj (N.of_nat a) 0) 4%nat
          (fun c => sample_session (if Nat.eqb c 0 then Some 3%nat else None))
          p.

(** The same world, except that the records [2] and [3] were last used
    two thousand seconds before second [0]. *)
Definition aged_world (clk : nat -> Time) (p : list loc) : World :=
  mkWorld clk 0%nat
          (fun n => N.of_nat n) 0%nat
          (fun a => sample_obj (N.of_nat a)
                      (if Nat.leb 2 a then - (2000) else 0)) 4%nat
          (fun c => sample_session (if Nat.eqb c 0 then Some 3%nat else None))
          p.

(** A world one clock reading old, where every record was last used at
    that reading. *)
Definition used_world (p : list loc) : World :=
  mkWorld ramp 1%nat
          (fun n => N.of_nat n) 0%nat
          (fun a => sample_obj (N.of_nat a) (ramp 0)) 4%nat
          (fun c => sample_session (if Nat.eqb c 0 then Some 3%nat else None))
          p.

(** ** Running the primitives *)

Lemma timed_out_run (self : loc) (m : Minutes) (w : World) :
  _ServerSession.timed_out self m w =
  Returns (stale_at (clock w) (heap w) m (ticks w) self)
          (set_ticks w (S (ticks w))).
Proof. reflexivity. Qed.

Lemma init_run (w : World) :
  _ServerSession.__init__ w = Returns (next_loc w) (after_mint w).
Proof. reflexivity. Qed.

Lemma stale_at_true clk h m n s :
  stale_at clk h m n s = true <-> (m - 1) * 60 < clk n - last_use (h s).
Proof.
  unfold stale_at, Qgtb. rewrite negb_true_iff.
  split; intro H.
  - apply Qnot_le_lt. intro Hle. apply Qle_bool_iff in Hle. congruence.
  - destruct (Qle_bool (clk n - last_use (h s)) ((m - 1) * 60)) eqn:E;
      [| reflexivity].
    apply Qle_bool_iff in E. exfalso. apply (Qlt_not_le _ _ H E).
Qed.

Lemma stale_at_false clk h m n s :
  stale_at clk h m n s = false <-> clk n - last_use (h s) <= (m - 1) * 60.
Proof.
  unfold stale_at, Qgtb. rewrite negb_false_iff. apply Qle_bool_iff.
Qed.

(** ** The deque seen from its right end *)

Lemma bool_run_right (w : World) (front : list loc) (s : loc) :
  pool w = front ++ [s] -> deque.__bool__ w = Returns true w.
Proof.
  intro Hp. unfold deque.__bool__. rewrite Hp.
  destruct front; reflexivity.
Qed.

Lemma last_item_run (w : World) (front : list loc) (s : loc) :
  pool w = front ++ [s] -> deque.last_item w = Returns s w.
Proof.
  intro Hp. unfold deque.last_item.
  rewrite Hp, rev_app_distr. reflexivity.
Qed.

Lemma pop_run (w : World) (front : list loc) (s : loc) :
  pool w = front ++ [s] -> deque.pop w = Returns s (set_pool w front).
Proof.
  intro Hp. unfold deque.pop.
  rewrite Hp, rev_app_distr. simpl. rewrite rev_involutive. reflexivity.
Qed.

Lemma bool_run_empty (w : World) :
  pool w = [] -> deque.__bool__ w = Returns false w.
Proof. intro Hp. unfold deque.__bool__. rewrite Hp. reflexivity. Qed.

Lemma world_eta (w : World) :
  set_ticks (set_pool w (pool w)) (ticks w) = w.
Proof. destruct w; reflexivity. Qed.

(** ** The two loops *)

Lemma clear_stale_loop_run (m : Minutes) :
  forall (l : list loc) (fuel : nat) (w : World),
    pool w = rev l -> (List.length l < fuel)%nat ->
    _ServerSessionPool._clear_stale_loop fuel m w =
    Returns tt
      (set_ticks
         (set_pool w (rev (fst (sweep (clock w) (heap w) m (ticks w) l))))
         (snd (sweep (clock w) (heap w) m (ticks w) l))).
Proof.
  induction l as [| s l IH]; intros fuel w Hp Hf;
    (destruct fuel as [| fuel]; [simpl in Hf; lia |]).
  - simpl in Hp. cbn [_ServerSessionPool._clear_stale_loop].
    unfold bind. rewrite (bool_run_empty w Hp).
    cbn [sweep fst snd rev]. rewrite <- Hp, world_eta. reflexivity.
  - simpl in Hp. cbn [_ServerSessionPool._clear_stale_loop].
    unfold bind at 1. rewrite (bool_run_right w _ _ Hp).
    unfold bind at 1. rewrite (last_item_run w _ _ Hp).
    unfold bind at 1. rewrite timed_out_run.
    cbn [sweep].
    destruct (stale_at (clock w) (heap w) m (ticks w) s) eqn:Hs.
    + unfold bind at 1.
      rewrite (pop_run (set_ticks w (S (ticks w))) (rev l) s Hp).
      rewrite IH; [reflexivity | reflexivity | simpl in Hf; lia].
    + cbn [fst snd]. unfold ret. simpl rev. rewrite <- Hp.
      destruct w; reflexivity.
Qed.

Lemma clear_stale_run (m : Minutes) (w : World) :
  _ServerSessionPool._clear_stale m w =
  Returns tt
    (set_ticks
       (set_pool w
          (rev (fst (sweep (clock w) (heap w) m (ticks w) (rev (pool w))))))
       (snd (sweep (clock w) (heap w) m (ticks w) (rev (pool w))))).
Proof.
  unfold _ServerSessionPool._clear_stale, bind, deque.__len__.
  apply clear_stale_loop_run.
  - symmetry. apply rev_involutive.
  - rewrite length_rev. lia.
Qed.

Lemma get_loop_run (m : Minutes) :
  forall (l : list loc) (fuel : nat) (w : World),
    pool w = l -> (List.length l < fuel)%nat ->
    _ServerSessionPool.get_loop fuel m w =
    Returns (fst (fst (scan (clock w) (heap w) m (ticks w) l)))
      (set_ticks
         (set_pool w (snd (fst (scan (clock w) (heap w) m (ticks w) l))))
         (snd (scan (clock w) (heap w) m (ticks w) l))).
Proof.
  induction l as [| s l IH]; intros fuel w Hp Hf;
    (destruct fuel as [| fuel]; [simpl in Hf; lia |]).
  - cbn [_ServerSessionPool.get_loop]. unfold bind.
    rewrite (bool_run_empty w Hp). cbn [scan fst snd].
    rewrite <- Hp, world_eta. reflexivity.
  - cbn [_ServerSessionPool.get_loop]. unfold bind at 1.
    unfold deque.__bool__. rewrite Hp.
    unfold bind at 1. unfold deque.popleft. rewrite Hp.
    unfold bind at 1. rewrite timed_out_run.
    cbn [scan clock heap ticks set_pool set_ticks].
    destruct (stale_at (clock w) (heap w) m (ticks w) s) eqn:Hs.
    + cbn [negb]. rewrite IH; [reflexivity | reflexivity | simpl in Hf; lia].
    + reflexivity.
Qed.

(** ** The methods on sample pools *)

(** Two fresh records in front of two stale ones: the stale ones go, the
    front record is returned and one record stays. *)
Example get_sweeps_the_right_end :
  _ServerSessionPool.get_server_session 30
    (aged_world still [0; 1; 2; 3]%nat) =
  Returns 0%nat
    (set_ticks (set_pool (aged_world still [0; 1; 2; 3]%nat) [1%nat]) 4).
Proof. reflexivity. Qed.

(** A stale record in front of a fresh one, as the lock-free return can
    leave them: the sweep stops at once, the loop drops the stale record
    and returns the fresh one. *)
Example get_drops_a_stale_front :
  _ServerSessionPool.get_server_session 30 (aged_world still [2; 0]%nat) =
  Returns 0%nat (set_ticks (set_pool (aged_world still [2; 0]%nat) []) 3).
Proof. reflexivity. Qed.

(** Only stale records, or none: a new record is built. *)
Example get_mints_when_all_stale :
  _ServerSessionPool.get_server_session 30 (aged_world still [2; 3]%nat) =
  Returns 4%nat
    (after_mint (set_ticks (set_pool (aged_world still [2; 3]%nat) []) 2)).
Proof. reflexivity. Qed.

Example get_mints_when_empty :
  _ServerSessionPool.get_server_session 30 (aged_world still []) =
  Returns 4%nat (after_mint (aged_world still [])).
Proof. reflexivity. Qed.

(** The locked return drops a stale record and keeps a fresh one. *)
Example return_drops_a_stale_record :
  _ServerSessionPool.return_server_session 2%nat 30
    (aged_world still [0%nat]) =
  Returns tt (set_ticks (aged_world still [0%nat]) 2).
Proof. reflexivity. Qed.

Example return_keeps_a_fresh_record :
  _ServerSessionPool.return_server_session 1%nat 30
    (aged_world still [0%nat]) =
  Returns tt
    (set_ticks (set_pool (aged_world still [0%nat]) [1; 0]%nat) 2).
Proof. reflexivity. Qed.

(** The lock-free return keeps even a stale record. *)
Example return_no_lock_keeps_a_stale_record :
  _ServerSessionPool.return_server_session_no_lock 2%nat
    (aged_world still [0%nat]) =
  Returns tt (set_pool (aged_world still [0%nat]) [2; 0]%nat).
Proof. reflexivity. Qed.

(** ** What the loops leave behind *)

Lemma sweep_spec clk h m :
  forall (l : list loc) (n : nat),
  exists swept kept,
    l = swept ++ kept /\
    stale_run clk h m n swept = true /\
    fst (sweep clk h m n l) = kept /\
    ((kept = [] /\ snd (sweep clk h m n l) = (n + List.length swept)%nat) \/
     (exists s kept', kept = s :: kept' /\
        stale_at clk h m (n + List.length swept) s = false /\
        snd (sweep clk h m n l) = S (n + List.length swept))).
Proof.
  induction l as [| s l IH]; intro n.
  - exists [], []. simpl. rewrite Nat.add_0_r.
    repeat split. left. split; reflexivity.
  - simpl. destruct (stale_at clk h m n s) eqn:Hs.
    + destruct (IH (S n)) as (sw & kp & Hl & Hrun & Hfst & Hend).
      exists (s :: sw), kp. simpl. rewrite Hs, Hrun.
      rewrite <- Nat.add_succ_comm. subst l.
      repeat split; assumption.
    + exists [], (s :: l). simpl. rewrite Nat.add_0_r.
      repeat split. right. exists s, l. repeat split. assumption.
Qed.

Lemma scan_spec clk h m :
  forall (l : list loc) (n : nat),
    (exists discarded s rest,
        l = discarded ++ s :: rest /\
        stale_run clk h m n discarded = true /\
        stale_at clk h m (n + List.length discarded) s = false /\
        scan clk h m n l = (Some s, rest, S (n + List.length discarded))) \/
    (stale_run clk h m n l = true /\
     scan clk h m n l = (None, [], (n + List.length l)%nat)).
Proof.
  induction l as [| s l IH]; intro n.
  - right. simpl. rewrite Nat.add_0_r. split; reflexivity.
  - simpl. destruct (stale_at clk h m n s) eqn:Hs.
    + destruct (IH (S n)) as [(d & s' & r & Hl & Hrun & Hs' & Hscan)
                             | (Hrun & Hscan)].
      * left. exists (s :: d), s', r. simpl.
        rewrite Hs, Hrun, <- Nat.add_succ_comm. subst l.
        repeat split; assumption.
      * right. simpl. rewrite Hrun, Hscan, <- Nat.add_succ_comm.
        split; reflexivity.
    + left. exists [], s, l. simpl. rewrite Nat.add_0_r.
      repeat split. assumption.
Qed.

Lemma sweep_prefix clk h m (p : list loc) (n : nat) :
  exists swept, p = rev (fst (sweep clk h m n (rev p))) ++ swept.
Proof.
  destruct (sweep_spec clk h m (rev p) n) as (sw & kp & Hl & _ & Hfst & _).
  exists (rev sw). rewrite Hfst, <- rev_app_distr, <- Hl.
  symmetry. apply rev_involutive.
Qed.

(** ** The pool methods, run *)

Lemma get_server_session_run (m : Minutes) (w : World) :
  _ServerSessionPool.get_server_session m w =
  let sw := sweep (clock w) (heap w) m (ticks w) (rev (pool w)) in
  let sc := scan (clock w) (heap w) m (snd sw) (rev (fst sw)) in
  let w' := set_ticks (set_pool w (snd (fst sc))) (snd sc) in
  match fst (fst sc) with
  | Some s => Returns s w'
  | None => Returns (next_loc w) (after_mint w')
  end.
Proof.
  unfold _ServerSessionPool.get_server_session.
  unfold bind at 1. rewrite clear_stale_run.
  unfold bind at 1. unfold deque.__len__.
  unfold bind at 1.
  rewrite (get_loop_run m
             (rev (fst (sweep (clock w) (heap w) m (ticks w) (rev (pool w))))));
    [| reflexivity | simpl; lia].
  cbn [clock heap ticks set_ticks set_pool].
  cbv zeta.
  destruct (fst (fst (scan (clock w) (heap w) m
                        (snd (sweep (clock w) (heap w) m (ticks w)
                                (rev (pool w))))
                        (rev (fst (sweep (clock w) (heap w) m (ticks w)
                                     (rev (pool w)))))))); reflexivity.
Qed.

Lemma return_server_session_run (s : loc) (m : Minutes) (w : World) :
  _ServerSessionPool.return_server_session s m w =
  let sw := sweep (clock w) (heap w) m (ticks w) (rev (pool w)) in
  Returns tt
    (set_ticks
       (set_pool w
          (if stale_at (clock w) (heap w) m (snd sw) s
           then rev (fst sw) else s :: rev (fst sw)))
       (S (snd sw))).
Proof.
  unfold _ServerSessionPool.return_server_session.
  unfold bind at 1. rewrite clear_stale_run.
  unfold bind at 1. rewrite timed_out_run.
  cbn [clock heap ticks set_ticks set_pool]. cbv zeta.
  destruct (stale_at (clock w) (heap w) m
              (snd (sweep (clock w) (heap w) m (ticks w) (rev (pool w)))) s);
    reflexivity.
Qed.


Lemma sweep_pool clk h m (p : list loc) (n : nat) :
  exists kept swept,
    p = kept ++ swept /\
    stale_run clk h m n (rev swept) = true /\
    sweep_stops clk h m kept (n + List.length swept)
                (snd (sweep clk h m n (rev p))) /\
    rev (fst (sweep clk h m n (rev p))) = kept.
Proof.
  destruct (sweep_spec clk h m (rev p) n)
    as (sw & kp & Hl & Hrun & Hfst & Hend).
  exists (rev kp), (rev sw).
  rewrite rev_involutive, length_rev, Hfst.
  repeat split.
  - rewrite <- rev_app_distr, <- Hl. symmetry. apply rev_involutive.
  - assumption.
  - destruct Hend as [[Hk Hn] | (s & kp' & Hk & Hs & Hn)].
    + left. rewrite Hk. split; [reflexivity | assumption].
    + right. exists (rev kp'), s. rewrite Hk. repeat split; assumption.
Qed.

(** * The staleness predicate *)

(** ** Rounding and whole numbers *)

Lemma nearest_even_le (n s g : Z) :
  (0 < s -> n <= g * 2 ^ s -> Binary64.nearest_even n s <= g)%Z.
Proof.
  intros Hs Hn. unfold Binary64.nearest_even.
  assert (Hd : (0 < 2 ^ s)%Z) by (apply Z.pow_pos_nonneg; lia).
  pose proof (Z.div_mod n (2 ^ s) ltac:(lia)) as Hdm.
  pose proof (Z.mod_pos_bound n (2 ^ s) Hd) as Hr.
  set (d := (2 ^ s)%Z) in *. set (q := (n / d)%Z) in *.
  set (r := (n mod d)%Z) in *.
  assert (Hq : (q <= g)%Z) by nia.
  assert (Hq1 : (0 < r -> q + 1 <= g)%Z) by (intro; nia).
  destruct (Z.ltb_spec (2 * r) d); [assumption |].
  destruct (Z.ltb_spec d (2 * r)); [apply Hq1; lia |].
  destruct (Z.even q); [assumption | apply Hq1; lia].
Qed.

Lemma nearest_even_ge (n s g : Z) :
  (0 < s -> g * 2 ^ s <= n -> g <= Binary64.nearest_even n s)%Z.
Proof.
  intros Hs Hn. unfold Binary64.nearest_even.
  assert (Hd : (0 < 2 ^ s)%Z) by (apply Z.pow_pos_nonneg; lia).
  pose proof (Z.div_mod n (2 ^ s) ltac:(lia)) as Hdm.
  pose proof (Z.mod_pos_bound n (2 ^ s) Hd) as Hr.
  set (d := (2 ^ s)%Z) in *. set (q := (n / d)%Z) in *.
  set (r := (n mod d)%Z) in *.
  assert (Hq : (g <= q)%Z) by nia.
  destruct (Z.ltb_spec (2 * r) d); [assumption |].
  destruct (Z.ltb_spec d (2 * r)); [lia |].
  destruct (Z.even q); [assumption | lia].
Qed.

(** Rounding does not cross a number that the precision at hand can
    hold. *)
Lemma round53_le_grid (n g k : Z) :
  (Z.log2 (Z.abs n) - 52 <= k -> n <= g * 2 ^ k ->
   Binary64.round53 n <= g * 2 ^ k)%Z.
Proof.
  intros Hk Hn. unfold Binary64.round53.
  destruct (Z.leb_spec (Z.log2 (Z.abs n) - 52) 0) as [Hs | Hs];
    [assumption |].
  set (s := (Z.log2 (Z.abs n) - 52)%Z) in *.
  assert (E : (g * 2 ^ k = (g * 2 ^ (k - s)) * 2 ^ s)%Z).
  { rewrite <- Z.mul_assoc, <- Z.pow_add_r by lia. f_equal. f_equal. lia. }
  rewrite E in *.
  apply Z.mul_le_mono_nonneg_r; [apply Z.pow_nonneg; lia |].
  apply nearest_even_le; assumption.
Qed.

Lemma round53_ge_grid (n g k : Z) :
  (Z.log2 (Z.abs n) - 52 <= k -> g * 2 ^ k <= n ->
   g * 2 ^ k <= Binary64.round53 n)%Z.
Proof.
  intros Hk Hn. unfold Binary64.round53.
  destruct (Z.leb_spec (Z.log2 (Z.abs n) - 52) 0) as [Hs | Hs];
    [assumption |].
  set (s := (Z.log2 (Z.abs n) - 52)%Z) in *.
  assert (E : (g * 2 ^ k = (g * 2 ^ (k - s)) * 2 ^ s)%Z).
  { rewrite <- Z.mul_assoc, <- Z.pow_add_r by lia. f_equal. f_equal. lia. }
  rewrite E in *.
  apply Z.mul_le_mono_nonneg_r; [apply Z.pow_nonneg; lia |].
  apply nearest_even_ge; assumption.
Qed.

Lemma large_abs (n k : Z) :
  (0 <= k -> k < Z.log2 (Z.abs n) - 52 -> 2 ^ (53 + k) <= Z.abs n)%Z.
Proof.
  intros Hk Hs.
  assert (Hpos : (0 < Z.abs n)%Z).
  { destruct (Z.eq_dec (Z.abs n) 0) as [E | E]; [| lia].
    rewrite E in Hs. simpl in Hs. lia. }
  pose proof (Z.log2_spec (Z.abs n) Hpos) as [Hlo _].
  eapply Z.le_trans; [| exact Hlo].
  apply Z.pow_le_mono_r; lia.
Qed.

(** Rounding does not cross a whole number below [2 ^ 53] in size. *)
Lemma round53_le_int (n b : Z) :
  (Z.abs b < 2 ^ 53 -> n <= Binary64.of_int b ->
   Binary64.round53 n <= Binary64.of_int b)%Z.
Proof.
  unfold Binary64.of_int. intros Hb Hn.
  destruct (Z.le_gt_cases (Z.log2 (Z.abs n) - 52) 1074) as [Hs | Hs].
  - apply round53_le_grid; assumption.
  - pose proof (large_abs n 1074 ltac:(lia) ltac:(lia)) as Hbig.
    assert (Hp : (2 ^ (53 + 1074) = 2 ^ 53 * 2 ^ 1074)%Z)
      by (apply Z.pow_add_r; lia).
    assert (Hu : (0 < 2 ^ 1074)%Z) by (apply Z.pow_pos_nonneg; lia).
    assert (Hneg : (n < 0)%Z) by nia.
    set (s := (Z.log2 (Z.abs n) - 52)%Z) in *.
    pose proof (large_abs n (s - 1) ltac:(lia) ltac:(lia)) as Hbig'.
    replace (53 + (s - 1))%Z with (52 + s)%Z in Hbig' by lia.
    rewrite Z.pow_add_r in Hbig' by lia.
    assert (Hgrid : (Binary64.round53 n <= (- 2 ^ 52) * 2 ^ s)%Z).
    { apply round53_le_grid; [subst s; lia | lia]. }
    assert (Hs' : (2 ^ 1075 <= 2 ^ s)%Z) by (apply Z.pow_le_mono_r; lia).
    assert (H1075 : (2 ^ 1075 = 2 * 2 ^ 1074)%Z)
      by (change 1075%Z with (1 + 1074)%Z; rewrite Z.pow_add_r by lia;
          reflexivity).
    assert (H52 : (2 ^ 53 = 2 * 2 ^ 52)%Z) by reflexivity.
    assert (H52p : (0 < 2 ^ 52)%Z) by reflexivity.
    nia.
Qed.

Lemma round53_ge_int (n b : Z) :
  (Z.abs b < 2 ^ 53 -> Binary64.of_int b <= n ->
   Binary64.of_int b <= Binary64.round53 n)%Z.
Proof.
  unfold Binary64.of_int. intros Hb Hn.
  destruct (Z.le_gt_cases (Z.log2 (Z.abs n) - 52) 1074) as [Hs | Hs].
  - apply round53_ge_grid; assumption.
  - pose proof (large_abs n 1074 ltac:(lia) ltac:(lia)) as Hbig.
    assert (Hp : (2 ^ (53 + 1074) = 2 ^ 53 * 2 ^ 1074)%Z)
      by (apply Z.pow_add_r; lia).
    assert (Hu : (0 < 2 ^ 1074)%Z) by (apply Z.pow_pos_nonneg; lia).
    assert (Hpos : (0 < n)%Z) by nia.
    set (s := (Z.log2 (Z.abs n) - 52)%Z) in *.
    pose proof (large_abs n (s - 1) ltac:(lia) ltac:(lia)) as Hbig'.
    replace (53 + (s - 1))%Z with (52 + s)%Z in Hbig' by lia.
    rewrite Z.pow_add_r in Hbig' by lia.
    assert (Hgrid : (2 ^ 52 * 2 ^ s <= Binary64.round53 n)%Z).
    { apply round53_ge_grid; [subst s; lia | lia]. }
    assert (Hs' : (2 ^ 1075 <= 2 ^ s)%Z) by (apply Z.pow_le_mono_r; lia).
    assert (H1075 : (2 ^ 1075 = 2 * 2 ^ 1074)%Z)
      by (change 1075%Z with (1 + 1074)%Z; rewrite Z.pow_add_r by lia;
          reflexivity).
    assert (H52 : (2 ^ 53 = 2 * 2 ^ 52)%Z) by reflexivity.
    assert (H52p : (0 < 2 ^ 52)%Z) by reflexivity.
    nia.
Qed.

Lemma of_int_small (b : Z) :
  (Z.abs b < 2 ^ 53 ->
   - 2 ^ 2098 < Binary64.of_int b < 2 ^ 2098)%Z.
Proof.
  unfold Binary64.of_int. intro Hb.
  assert (Hu : (0 < 2 ^ 1074)%Z) by (apply Z.pow_pos_nonneg; lia).
  assert (Hp : (2 ^ 2098 = 2 ^ 1024 * 2 ^ 1074)%Z)
    by (change 2098%Z with (1024 + 1074)%Z; apply Z.pow_add_r; lia).
  assert (H53 : (2 ^ 53 < 2 ^ 1024)%Z) by (apply Z.pow_lt_mono_r; lia).
  nia.
Qed.

Lemma timed_out_binary64_false (now last_use m : Z) :
  (Z.abs ((m - 1) * 60) < 2 ^ 53 ->
   now - last_use <= Binary64.of_int ((m - 1) * 60) ->
   timed_out_binary64 now last_use m = false)%Z.
Proof.
  intros Hb Hd. unfold timed_out_binary64, Binary64.sub. cbv zeta.
  pose proof (round53_le_int _ _ Hb Hd) as Hr.
  pose proof (of_int_small _ Hb) as Hsmall.
  destruct (Z.leb_spec (2 ^ 2098)
              (Z.abs (Binary64.round53 (now - last_use)))) as [Hinf | Hfin];
    cbn [Binary64.gt_int].
  - apply negb_false_iff. apply Z.ltb_lt. lia.
  - apply Z.ltb_ge. assumption.
Qed.

Lemma timed_out_binary64_true (now last_use m : Z) :
  (Z.abs ((m - 1) * 60 + 1) < 2 ^ 53 ->
   Binary64.of_int ((m - 1) * 60 + 1) <= now - last_use ->
   timed_out_binary64 now last_use m = true)%Z.
Proof.
  intros Hb Hd. unfold timed_out_binary64, Binary64.sub. cbv zeta.
  pose proof (round53_ge_int _ _ Hb Hd) as Hr.
  pose proof (of_int_small _ Hb) as Hsmall.
  assert (Hlt : (Binary64.of_int ((m - 1) * 60)
                 < Binary64.of_int ((m - 1) * 60 + 1))%Z).
  { unfold Binary64.of_int.
    assert (Hu : (0 < 2 ^ 1074)%Z) by (apply Z.pow_pos_nonneg; lia). nia. }
  destruct (Z.leb_spec (2 ^ 2098)
              (Z.abs (Binary64.round53 (now - last_use)))) as [Hinf | Hfin];
    cbn [Binary64.gt_int].
  - apply negb_true_iff. apply Z.ltb_ge. lia.
  - apply Z.ltb_lt. lia.
Qed.

(** ** The subtraction against the library's IEEE 754 *)

(** [Binary64.sub] gives what the library's binary64 subtraction gives:
    on [1740.2 - 0.2] and its opposite, on ties (to the even neighbour,
    down and up), on an exact result among the smallest numbers, on equal
    operands and on a result too large for the format. *)
Example sub_agrees_with_the_library :
  Binary64.spec_sub 7653480538623181 (-42) 7205759403792794 (-55) =
    Some (Binary64.sub double_1740_2 double_0_2) /\
  Binary64.spec_sub 7205759403792794 (-55) 7653480538623181 (-42) =
    Some (Binary64.sub double_0_2 double_1740_2) /\
  Binary64.spec_sub 4503599627370496 1 (-1) 0 =
    Some (Binary64.sub (Binary64.double_of 4503599627370496 1)
                       (Binary64.double_of (-1) 0)) /\
  Binary64.spec_sub 4503599627370497 1 (-1) 0 =
    Some (Binary64.sub (Binary64.double_of 4503599627370497 1)
                       (Binary64.double_of (-1) 0)) /\
  Binary64.spec_sub 3 (-1074) 1 (-1074) =
    Some (Binary64.sub (Binary64.double_of 3 (-1074))
                       (Binary64.double_of 1 (-1074))) /\
  Binary64.spec_sub 7205759403792794 (-55) 7205759403792794 (-55) =
    Some (Binary64.sub double_0_2 double_0_2) /\
  Binary64.spec_sub 9007199254740991 971 (-9007199254740991) 971 =
    Some (Binary64.sub (Binary64.double_of 9007199254740991 971)
                       (Binary64.double_of (-9007199254740991) 971)).
Proof. repeat split; vm_compute; reflexivity. Qed.

Example sub_on_samples :
  Binary64.sub double_1740_2 double_0_2 =
    Binary64.Finite (Binary64.of_int 1740) /\
  Binary64.sub (Binary64.double_of 4503599627370496 1)
               (Binary64.double_of (-1) 0) =
    Binary64.Finite (Binary64.double_of 4503599627370496 1) /\
  Binary64.sub (Binary64.double_of 4503599627370497 1)
               (Binary64.double_of (-1) 0) =
    Binary64.Finite (Binary64.double_of 4503599627370498 1) /\
  Binary64.sub (Binary64.double_of 9007199254740991 971)
               (Binary64.double_of (-9007199254740991) 971) =
    Binary64.Infinity false /\
  Binary64.representable double_0_2 = true /\
  Binary64.representable double_1740_2 = true /\
  Binary64.representable (double_1740_2 - double_0_2) = false.
Proof. repeat split; vm_compute; reflexivity. Qed.

(** ** The verdict *)

(** C3, as the code has it: for a timeout of a whole number of minutes,
    [(session_timeout_minutes - 1) * 60] being below [2 ^ 53] in size,
    [timed_out] answers true exactly when the difference of the two times
    as the float subtraction rounds it exceeds [(session_timeout_minutes -
    1) * 60].  So it answers true only if the time elapsed exceeds that
    many seconds, false whenever the time elapsed is at most that many
    seconds, and true whenever the time elapsed is at least a second
    more. *)
Theorem timed_out_binary64_spec (now last_use m : Z) :
  (Z.abs ((m - 1) * 60) + 1 < 2 ^ 53)%Z ->
  (timed_out_binary64 now last_use m = true <->
   match Binary64.sub now last_use with
   | Binary64.Finite d => (Binary64.of_int ((m - 1) * 60) < d)%Z
   | Binary64.Infinity negative => negative = false
   end) /\
  (timed_out_binary64 now last_use m = true ->
   (Binary64.of_int ((m - 1) * 60) < now - last_use)%Z) /\
  ((now - last_use <= Binary64.of_int ((m - 1) * 60))%Z ->
   timed_out_binary64 now last_use m = false) /\
  ((Binary64.of_int ((m - 1) * 60 + 1) <= now - last_use)%Z ->
   timed_out_binary64 now last_use m = true).
Proof.
  intro Hb. split; [| split; [| split]].
  - unfold timed_out_binary64. cbv zeta.
    destruct (Binary64.sub now last_use) as [d | negative];
      cbn [Binary64.gt_int].
    + apply Z.ltb_lt.
    + apply negb_true_iff.
  - intro Ht.
    destruct (Z.le_gt_cases (now - last_use)
                (Binary64.of_int ((m - 1) * 60))) as [Hle | Hgt];
      [| lia].
    rewrite timed_out_binary64_false in Ht; [discriminate | lia | exact Hle].
  - apply timed_out_binary64_false. lia.
  - apply timed_out_binary64_true. lia.
Qed.

Lemma timed_out_binary64_spec_witness :
  (Z.abs ((30 - 1) * 60) + 1 < 2 ^ 53)%Z /\
  (timed_out_binary64 double_1740_2 double_0_2 30 = true ->
   (Binary64.of_int ((30 - 1) * 60) < double_1740_2 - double_0_2)%Z) /\
  ((Binary64.double_of 3481 (-1) - double_0_2
    <= Binary64.of_int ((30 - 1) * 60))%Z ->
   timed_out_binary64 (Binary64.double_of 3481 (-1)) double_0_2 30 = false) /\
  ((Binary64.of_int ((30 - 1) * 60 + 1)
    <= Binary64.double_of 3483 (-1) - double_0_2)%Z ->
   timed_out_binary64 (Binary64.double_of 3483 (-1)) double_0_2 30 = true).
Proof.
  assert (Hb : (Z.abs ((30 - 1) * 60) + 1 < 2 ^ 53)%Z) by reflexivity.
  split; [exact Hb |]. split; [| split].
  - apply (timed_out_binary64_spec double_1740_2 double_0_2 30 Hb).
  - apply (timed_out_binary64_spec (Binary64.double_of 3481 (-1))
             double_0_2 30 Hb).
  - apply (timed_out_binary64_spec (Binary64.double_of 3483 (-1))
             double_0_2 30 Hb).
Defined.

(** C3 fails as stated: with [last_use] the double [0.2], the clock at the
    double [1740.2] and a timeout of thirty minutes, the time elapsed
    exceeds [1740] seconds, by [819 / 2 ^ 54], but the subtraction rounds
    it to [1740.0] and [timed_out] answers false. *)
Lemma timed_out_rounds_down :
  (Binary64.of_int ((30 - 1) * 60) < double_1740_2 - double_0_2)%Z /\
  (double_1740_2 - double_0_2 - Binary64.of_int ((30 - 1) * 60)
   = Binary64.double_of 819 (-54))%Z /\
  Binary64.sub double_1740_2 double_0_2 =
    Binary64.Finite (Binary64.of_int 1740) /\
  timed_out_binary64 double_1740_2 double_0_2 30 = false.
Proof. repeat split; vm_compute; reflexivity. Qed.

(** * The pool *)



Lemma use_lsid_run (self : loc) (w : World) :
  _ServerSession.use_lsid self w =
  Returns (session_id (heap w self))
    (set_ticks
       (set_heap w
          (upd (heap w) self
             (mkServerSession (session_id (heap w self))
                              (clock w (ticks w)))))
       (S (ticks w))).
Proof.
  unfold _ServerSession.use_lsid, bind, monotonic_time, deref, assign, ret.
  cbn [heap set_ticks set_heap]. unfold upd at 1.
  rewrite Nat.eqb_refl. reflexivity.
Qed.

(** C6, as the code has it: [get_server_session] hands out a pooled record
    with the [last_use] it had in the pool, the store being left as it
    was; only a record it builds itself carries the clock reading taken at
    its construction.  [last_use] is set to the current reading by
    [use_lsid]. *)
Theorem get_server_session_last_use (w : World) (m : Minutes) (self : loc) :
  (exists s w',
      _ServerSessionPool.get_server_session m w = Returns s w' /\
      ((In s (pool w) /\ heap w' = heap w) \/
       (s = next_loc w /\ pool w' = [] /\
        heap w' =
          upd (heap w) (next_loc w)
              (minted w (drawn w) (Nat.pred (ticks w')))))) /\
  (exists w',
      _ServerSession.use_lsid self w =
        Returns (session_id (heap w self)) w' /\
      last_use (heap w' self) = clock w (ticks w)).
Proof.
  split.
  - rewrite get_server_session_run. cbv zeta.
    destruct (sweep_pool (clock w) (heap w) m (pool w) (ticks w))
      as (kept & swept & Hp & _ & _ & Hkept).
    rewrite Hkept.
    destruct (scan_spec (clock w) (heap w) m kept
                (snd (sweep (clock w) (heap w) m (ticks w) (rev (pool w)))))
      as [(d & s & r & Hk & _ & _ & Hscan) | (_ & Hscan)];
      rewrite Hscan; cbn [fst snd].
    + eexists. eexists. split; [reflexivity |]. left. split.
      * rewrite Hp, Hk. apply in_or_app. left.
        apply in_or_app. right. left. reflexivity.
      * reflexivity.
    + eexists. eexists. split; [reflexivity |]. right.
      repeat split.
  - rewrite use_lsid_run. eexists. split; [reflexivity |].
    cbn [heap set_ticks set_heap]. unfold upd.
    rewrite Nat.eqb_refl. reflexivity.
Qed.

(** C6 fails as stated: with record [0] in the pool, last used at second
    [0], a checkout at a timeout of thirty minutes returns that record with
    [last_use] still [0], which is none of the readings of the clock. *)
Lemma checkout_keeps_last_use :
  _ServerSessionPool.get_server_session 30 (sample_world ramp [0%nat]) =
    Returns 0%nat (set_ticks (set_pool (sample_world ramp [0%nat]) []) 2) /\
  last_use
    (heap (set_ticks (set_pool (sample_world ramp [0%nat]) []) 2) 0%nat)
    == 0 /\
  forall n, ~ clock (sample_world ramp [0%nat]) n == 0.
Proof.
  split; [reflexivity |]. split; [reflexivity |].
  intros n H. unfold sample_world, ramp, clock, Qeq in H.
  cbn [Qnum Qden inject_Z] in H. lia.
Qed.

(** C7: [return_server_session_no_lock] always returns; it puts the record
    at the left end of the deque whatever its age, reads no clock, and
    leaves the rest of the deque and every object as they were. *)
Theorem return_server_session_no_lock_spec (w : World) (s : loc) :
  exists w',
    _ServerSessionPool.return_server_session_no_lock s w = Returns tt w' /\
    pool w' = s :: pool w /\
    ticks w' = ticks w /\
    clock w' = clock w /\
    heap w' = heap w /\
    next_loc w' = next_loc w /\
    uuids w' = uuids w /\
    drawn w' = drawn w /\
    sessions w' = sessions w.
Proof.
  exists (set_pool w (s :: pool w)). repeat split.
Qed.

(** C9: no method of the pool changes a record that exists:
    [get_server_session], [return_server_session],
    [return_server_session_no_lock] and [_clear_stale] leave its
    [session_id] and [last_use] as they were.  [use_lsid] changes the
    [last_use] of its own record only, and no [session_id]. *)
Theorem pool_methods_frame (w : World) (m : Minutes) (s a : loc) :
  (a < next_loc w)%nat ->
  (exists r w',
      _ServerSessionPool.get_server_session m w = Returns r w' /\
      heap w' a = heap w a) /\
  (exists w',
      _ServerSessionPool.return_server_session s m w = Returns tt w' /\
      heap w' = heap w) /\
  (exists w',
      _ServerSessionPool.return_server_session_no_lock s w = Returns tt w' /\
      heap w' = heap w) /\
  (exists w',
      _ServerSessionPool._clear_stale m w = Returns tt w' /\
      heap w' = heap w) /\
  (exists d w',
      _ServerSession.use_lsid s w = Returns d w' /\
      session_id (heap w' a) = session_id (heap w a) /\
      (a = s \/ heap w' a = heap w a)).
Proof.
  intro Ha. repeat split.
  - rewrite get_server_session_run. cbv zeta.
    destruct (fst (fst (scan (clock w) (heap w) m
                (snd (sweep (clock w) (heap w) m (ticks w) (rev (pool w))))
                (rev (fst (sweep (clock w) (heap w) m (ticks w)
                             (rev (pool w)))))))).
    + eexists. eexists. split; reflexivity.
    + eexists. eexists. split; [reflexivity |].
      cbn [heap after_mint set_ticks set_pool next_loc]. unfold upd.
      replace (Nat.eqb a (next_loc w)) with false; [reflexivity |].
      symmetry. apply Nat.eqb_neq. lia.
  - rewrite return_server_session_run. eexists. split; reflexivity.
  - eexists. split; reflexivity.
  - rewrite clear_stale_run. eexists. split; reflexivity.
  - rewrite use_lsid_run. eexists. eexists. split; [reflexivity |].
    cbn [heap set_ticks set_heap]. unfold upd.
    destruct (Nat.eqb a s) eqn:E.
    + apply Nat.eqb_eq in E. subst a. split; [reflexivity | left; reflexivity].
    + split; [reflexivity | right; reflexivity].
Qed.

Lemma pool_methods_frame_witness :
  (0 < next_loc (sample_world ramp [1%nat; 0%nat]))%nat /\
  (exists r w',
      _ServerSessionPool.get_server_session 30
        (sample_world ramp [1%nat; 0%nat]) = Returns r w' /\
      heap w' 0%nat = heap (sample_world ramp [1%nat; 0%nat]) 0%nat).
Proof.
  split; [simpl; lia |].
  apply (pool_methods_frame (sample_world ramp [1%nat; 0%nat]) 30 2%nat 0%nat).
  simpl; lia.
Defined.

(** ** Fresh records *)

Lemma hd_error_in (l : list loc) (s : loc) :
  hd_error l = Some s -> In s l.
Proof.
  destruct l as [| x l]; simpl; intro H; [discriminate |].
  injection H as H. left. assumption.
Qed.

Lemma sweep_fresh clk h m (n : nat) (l : list loc) :
  (forall s, hd_error l = Some s -> stale_at clk h m n s = false) ->
  fst (sweep clk h m n l) = l /\
  (n <= snd (sweep clk h m n l) <= S n)%nat.
Proof.
  destruct l as [| x l]; simpl; intro H.
  - split; [reflexivity | lia].
  - rewrite (H x eq_refl). simpl. split; [reflexivity | lia].
Qed.

Lemma fresh_between_weaken clk h m (lo hi lo' hi' : nat) (l l' : list loc) :
  fresh_between clk h m lo hi l ->
  (lo <= lo')%nat -> (hi' <= hi)%nat -> incl l' l ->
  fresh_between clk h m lo' hi' l'.
Proof.
  intros H Hlo Hhi Hincl s n Hs Hn. apply H; [apply Hincl; assumption | lia].
Qed.

Lemma sweep_fresh_pool (w : World) (m : Minutes) (l : list loc) :
  fresh_between (clock w) (heap w) m (ticks w) (ticks w + 2) l ->
  incl (pool w) l ->
  rev (fst (sweep (clock w) (heap w) m (ticks w) (rev (pool w)))) = pool w /\
  (ticks w <= snd (sweep (clock w) (heap w) m (ticks w) (rev (pool w)))
   <= S (ticks w))%nat.
Proof.
  intros Hf Hincl.
  destruct (sweep_fresh (clock w) (heap w) m (ticks w) (rev (pool w)))
    as [Hfst Hsnd].
  - intros s Hs. apply Hf; [| lia].
    apply Hincl. apply in_rev. apply hd_error_in. assumption.
  - rewrite Hfst, rev_involutive. split; [reflexivity | assumption].
Qed.

Lemma return_fresh (w : World) (s : loc) (m : Minutes) :
  fresh_between (clock w) (heap w) m (ticks w) (ticks w + 2)
                (s :: pool w) ->
  exists w',
    _ServerSessionPool.return_server_session s m w = Returns tt w' /\
    pool w' = s :: pool w /\
    clock w' = clock w /\ heap w' = heap w /\
    (ticks w <= ticks w' <= ticks w + 2)%nat.
Proof.
  intro Hf. rewrite return_server_session_run. cbv zeta.
  destruct (sweep_fresh_pool w m (s :: pool w) Hf) as [Hfst Hsnd].
  { apply incl_tl, incl_refl. }
  rewrite Hfst, (Hf s); [| left; reflexivity | lia].
  eexists. split; [reflexivity |].
  cbn [pool clock heap ticks set_ticks set_pool].
  repeat split; lia.
Qed.

Lemma get_fresh (w : World) (s : loc) (rest : list loc) (m : Minutes) :
  pool w = s :: rest ->
  fresh_between (clock w) (heap w) m (ticks w) (ticks w + 2) (pool w) ->
  exists w',
    _ServerSessionPool.get_server_session m w = Returns s w' /\
    pool w' = rest /\
    clock w' = clock w /\ heap w' = heap w /\
    (ticks w <= ticks w' <= ticks w + 2)%nat.
Proof.
  intros Hp Hf. rewrite get_server_session_run. cbv zeta.
  destruct (sweep_fresh_pool w m (pool w) Hf (incl_refl _)) as [Hfst Hsnd].
  rewrite Hfst, Hp. rewrite Hp in Hsnd. cbn [scan].
  rewrite (Hf s); [| rewrite Hp; left; reflexivity | lia].
  cbn [fst snd]. eexists. split; [reflexivity |].
  cbn [pool clock heap ticks set_ticks set_pool].
  repeat split; lia.
Qed.

(** C8: from an empty pool, three records given back through
    [return_server_session] in the order R1, R2, R3, none of which is found
    stale meanwhile, come out of three calls of [get_server_session] in
    the order R3, R2, R1. *)
Theorem recency_order (w : World) (m : Minutes) (r1 r2 r3 : loc) :
  pool w = [] ->
  fresh_between (clock w) (heap w) m (ticks w) (ticks w + 12)
                [r1; r2; r3] ->
  exists w1 w2 w3 w4 w5 w6,
    _ServerSessionPool.return_server_session r1 m w = Returns tt w1 /\
    _ServerSessionPool.return_server_session r2 m w1 = Returns tt w2 /\
    _ServerSessionPool.return_server_session r3 m w2 = Returns tt w3 /\
    _ServerSessionPool.get_server_session m w3 = Returns r3 w4 /\
    _ServerSessionPool.get_server_session m w4 = Returns r2 w5 /\
    _ServerSessionPool.get_server_session m w5 = Returns r1 w6 /\
    pool w6 = [].
Proof.
  intros Hp Hf.
  destruct (return_fresh w r1 m) as (w1 & E1 & P1 & C1 & H1 & T1).
  { rewrite Hp. eapply fresh_between_weaken; [exact Hf | lia | lia |].
    intros x [Hx | []]. subst x. left. reflexivity. }
  rewrite Hp in P1.
  destruct (return_fresh w1 r2 m) as (w2 & E2 & P2 & C2 & H2 & T2).
  { rewrite P1, C1, H1.
    eapply fresh_between_weaken; [exact Hf | lia | lia |].
    intros x [Hx | [Hx | []]]; subst x; simpl; auto. }
  rewrite P1 in P2.
  destruct (return_fresh w2 r3 m) as (w3 & E3 & P3 & C3 & H3 & T3).
  { rewrite P2, C2, H2, C1, H1.
    eapply fresh_between_weaken; [exact Hf | lia | lia |].
    intros x [Hx | [Hx | [Hx | []]]]; subst x; simpl; auto. }
  rewrite P2 in P3.
  destruct (get_fresh w3 r3 [r2; r1] m P3) as (w4 & E4 & P4 & C4 & H4 & T4).
  { rewrite P3, C3, H3, C2, H2, C1, H1.
    eapply fresh_between_weaken; [exact Hf | lia | lia |].
    intros x [Hx | [Hx | [Hx | []]]]; subst x; simpl; auto. }
  destruct (get_fresh w4 r2 [r1] m P4) as (w5 & E5 & P5 & C5 & H5 & T5).
  { rewrite P4, C4, H4, C3, H3, C2, H2, C1, H1.
    eapply fresh_between_weaken; [exact Hf | lia | lia |].
    intros x [Hx | [Hx | []]]; subst x; simpl; auto. }
  destruct (get_fresh w5 r1 [] m P5) as (w6 & E6 & P6 & C6 & H6 & T6).
  { rewrite P5, C5, H5, C4, H4, C3, H3, C2, H2, C1, H1.
    eapply fresh_between_weaken; [exact Hf | lia | lia |].
    intros x [Hx | []]; subst x; simpl; auto. }
  exists w1, w2, w3, w4, w5, w6. repeat split; assumption.
Qed.

Lemma recency_order_witness :
  pool (sample_world ramp []) = [] /\
  fresh_between (clock (sample_world ramp [])) (heap (sample_world ramp []))
                30 (ticks (sample_world ramp []))
                (ticks (sample_world ramp []) + 12)
                [0%nat; 1%nat; 2%nat] /\
  exists w1 w2 w3 w4 w5 w6,
    _ServerSessionPool.return_server_session 0%nat 30 (sample_world ramp [])
      = Returns tt w1 /\
    _ServerSessionPool.return_server_session 1%nat 30 w1 = Returns tt w2 /\
    _ServerSessionPool.return_server_session 2%nat 30 w2 = Returns tt w3 /\
    _ServerSessionPool.get_server_session 30 w3 = Returns 2%nat w4 /\
    _ServerSessionPool.get_server_session 30 w4 = Returns 1%nat w5 /\
    _ServerSessionPool.get_server_session 30 w5 = Returns 0%nat w6 /\
    pool w6 = [].
Proof.
  assert (Hf : fresh_between (clock (sample_world ramp []))
                 (heap (sample_world ramp [])) 30
                 (ticks (sample_world ramp []))
                 (ticks (sample_world ramp []) + 12)
                 [0%nat; 1%nat; 2%nat]).
  { intros s n _ Hn. apply stale_at_false.
    unfold sample_world, ramp, clock, heap, sample_obj, last_use, ticks in *.
    unfold Qle, Qminus, Qplus, Qopp, Qmult. cbn [Qnum Qden inject_Z].
    simpl in Hn. lia. }
  split; [reflexivity |]. split; [exact Hf |].
  apply (recency_order (sample_world ramp []) 30 0%nat 1%nat 2%nat);
    [reflexivity | exact Hf].
Defined.

(** ** Timeouts of a minute or less *)

Lemma short_timeout_stale clk h (m : Minutes) (n : nat) (s : loc) :
  elapsed_enough m (last_use (h s)) (clk n) ->
  stale_at clk h m n s = true.
Proof.
  intro H. apply stale_at_true.
  destruct H as [[Hm Ht] | [Hm Ht]].
  - rewrite Hm. lra.
  - assert (Hneg : (m - 1) * 60 < 0) by lra. lra.
Qed.

Lemma sweep_all_stale clk h m :
  forall (l : list loc) (n : nat),
    (forall s n', In s l -> (n <= n')%nat -> stale_at clk h m n' s = true) ->
    sweep clk h m n l = ([], (n + List.length l)%nat).
Proof.
  induction l as [| x l IH]; intros n H; simpl.
  - rewrite Nat.add_0_r. reflexivity.
  - rewrite (H x n); [| left; reflexivity | lia].
    rewrite IH, Nat.add_succ_comm; [reflexivity |].
    intros s n' Hs Hn. apply H; [right; assumption | lia].
Qed.

(** C10: [timed_out] accepts any timeout.  When the timeout is one minute
    and some time has passed since [last_use], or when it is less than one
    minute and the clock is not behind [last_use], the answer is true; so,
    as long as this is so for the records concerned,
    [get_server_session] empties the pool and returns a newly built
    record, and [return_server_session] empties the pool and drops the
    record it was given. *)
Theorem short_timeout_never_reuses (w : World) (m : Minutes) (s : loc) :
  (forall a n, In a (s :: pool w) -> (ticks w <= n)%nat ->
               elapsed_enough m (last_use (heap w a)) (clock w n)) ->
  _ServerSession.timed_out s m w = Returns true (set_ticks w (S (ticks w))) /\
  _ServerSessionPool.get_server_session m w =
    Returns (next_loc w)
      (after_mint (set_ticks (set_pool w [])
                             (ticks w + List.length (pool w)))) /\
  _ServerSessionPool.return_server_session s m w =
    Returns tt (set_ticks (set_pool w [])
                          (S (ticks w + List.length (pool w)))).
Proof.
  intro H.
  assert (Hsw : sweep (clock w) (heap w) m (ticks w) (rev (pool w)) =
                ([], (ticks w + List.length (pool w))%nat)).
  { rewrite <- (length_rev (pool w)). apply sweep_all_stale.
    intros a n Ha Hn. apply short_timeout_stale. apply H; [| assumption].
    right. apply in_rev. assumption. }
  split; [| split].
  - rewrite timed_out_run, short_timeout_stale; [reflexivity |].
    apply H; [left; reflexivity | lia].
  - rewrite get_server_session_run, Hsw. reflexivity.
  - rewrite return_server_session_run, Hsw. cbv zeta. cbn [fst snd rev].
    rewrite short_timeout_stale; [reflexivity |].
    apply H; [left; reflexivity | lia].
Qed.

Lemma short_timeout_never_reuses_witness :
  (forall a n,
      In a (2%nat :: pool (sample_world ramp [0%nat; 1%nat])) ->
      (ticks (sample_world ramp [0%nat; 1%nat]) <= n)%nat ->
      elapsed_enough 1
        (last_use (heap (sample_world ramp [0%nat; 1%nat]) a))
        (clock (sample_world ramp [0%nat; 1%nat]) n)) /\
  _ServerSessionPool.get_server_session 1
    (sample_world ramp [0%nat; 1%nat]) =
    Returns 4%nat
      (after_mint (set_ticks (set_pool (sample_world ramp [0%nat; 1%nat]) [])
                             2)).
Proof.
  assert (H : forall a n,
             In a (2%nat :: pool (sample_world ramp [0%nat; 1%nat])) ->
             (ticks (sample_world ramp [0%nat; 1%nat]) <= n)%nat ->
             elapsed_enough 1
               (last_use (heap (sample_world ramp [0%nat; 1%nat]) a))
               (clock (sample_world ramp [0%nat; 1%nat]) n)).
  { intros a n _ _. left. split; [reflexivity |].
    unfold sample_world, ramp, clock, heap, sample_obj, last_use, Qlt.
    cbn [Qnum Qden inject_Z]. lia. }
  split; [exact H |].
  apply (short_timeout_never_reuses (sample_world ramp [0%nat; 1%nat]) 1
           2%nat H).
Defined.

(** * The session handle *)

Lemma end_session_run (self : loc) (lock : bool) (w : World) :
  ClientSession._end_session self lock w =
  match _server_session (sessions w self) with
  | None => Returns tt w
  | Some s =>
      match _return_server_session (_client (sessions w self)) s lock w with
      | Returns _ w' =>
          Returns tt
            (set_sessions w'
               (upd (sessions w') self (ended (sessions w' self))))
      | Raises e w' => Raises e w'
      | Diverges => Diverges
      end
  end.
Proof.
  unfold ClientSession._end_session, bind at 1, ClientSession.self_obj.
  destruct (_server_session (sessions w self)) as [s |]; [| reflexivity].
  unfold bind at 1, ClientSession.client, bind at 1,
    ClientSession.self_obj, ret.
  unfold bind at 1.
  destruct (_return_server_session (_client (sessions w self)) s lock w);
    reflexivity.
Qed.

Lemma release_run (c : MongoClient) (s : loc) (lock : bool) (w : World) :
  exists p n kept swept,
    _return_server_session c s lock w =
      Returns tt (set_ticks (set_pool w p) n) /\
    pool w = kept ++ swept /\
    (p = s :: kept \/ p = kept).
Proof.
  destruct lock; unfold _return_server_session.
  - rewrite return_server_session_run. cbv zeta.
    destruct (sweep_pool (clock w) (heap w)
                (client_session_timeout_minutes c) (pool w) (ticks w))
      as (kept & swept & Hp & _ & _ & Hkept).
    rewrite Hkept.
    eexists. eexists. exists kept, swept.
    split; [reflexivity |]. split; [assumption |].
    destruct (stale_at (clock w) (heap w)
                (client_session_timeout_minutes c) _ s); auto.
  - exists (s :: pool w), (ticks w), (pool w), [].
    split; [reflexivity |]. split; [symmetry; apply app_nil_r |].
    left. reflexivity.
Qed.

Lemma ended_handle (self : loc) (explicit : bool) (w : World) :
  _server_session (sessions w self) = None ->
  end_of_life explicit self w = Returns tt w /\
  ClientSession.has_ended self w = Returns true w /\
  ClientSession.session_id self w =
    Raises (InvalidOperation "Cannot use ended session") w /\
  ClientSession._use_lsid self w =
    Raises (InvalidOperation "Cannot use ended session") w.
Proof.
  intro H. repeat split.
  - destruct explicit; unfold end_of_life, ClientSession.end_session;
      rewrite end_session_run, H; reflexivity.
  - unfold ClientSession.has_ended, bind, ClientSession.self_obj, ret.
    rewrite H. reflexivity.
  - unfold ClientSession.session_id, bind, ClientSession.self_obj.
    rewrite H. reflexivity.
  - unfold ClientSession._use_lsid, bind, ClientSession.self_obj.
    rewrite H. reflexivity.
Qed.

Lemma end_of_life_run (self : loc) (explicit : bool) (w : World) :
  exists w1,
    end_of_life explicit self w = Returns tt w1 /\
    _server_session (sessions w1 self) = None /\
    _client (sessions w1 self) = _client (sessions w self) /\
    _options (sessions w1 self) = _options (sessions w self) /\
    match _server_session (sessions w self) with
    | None => w1 = w
    | Some s =>
        exists w' kept swept,
          _return_server_session (_client (sessions w self)) s explicit w =
            Returns tt w' /\
          w1 = set_sessions w'
                 (upd (sessions w') self (ended (sessions w' self))) /\
          sessions w' = sessions w /\
          pool w = kept ++ swept /\
          (pool w1 = s :: kept \/ pool w1 = kept)
    end.
Proof.
  assert (E : end_of_life explicit self w =
              ClientSession._end_session self explicit w)
    by (destruct explicit; reflexivity).
  rewrite E, end_session_run.
  destruct (_server_session (sessions w self)) as [s |] eqn:Hs.
  - destruct (release_run (_client (sessions w self)) s explicit w)
      as (p & n & kept & swept & Hr & Hp & Hin).
    rewrite Hr. eexists. split; [reflexivity |].
    cbn [sessions set_sessions set_ticks set_pool pool]. unfold upd at 1 2 3.
    rewrite Nat.eqb_refl. cbn [ended _server_session _client _options].
    repeat split.
    exists (set_ticks (set_pool w p) n), kept, swept.
    repeat split; assumption.
  - exists w. repeat split. assumption.
Qed.



(** C5: [session_id] and [_use_lsid] raise [InvalidOperation] exactly when
    [has_ended] answers true, and return otherwise; [client], [options]
    and [has_ended] always return.  After the handle has ended, by either
    way, [has_ended] answers true, [session_id] and [_use_lsid] raise, and
    [client] and [options] answer as before. *)
Theorem ended_session_access (w : World) (self : loc) (explicit : bool) :
  (exists b,
      ClientSession.has_ended self w = Returns b w /\
      (b = true <->
       ClientSession.session_id self w =
         Raises (InvalidOperation "Cannot use ended session") w) /\
      (b = true <->
       ClientSession._use_lsid self w =
         Raises (InvalidOperation "Cannot use ended session") w) /\
      (b = false <->
       exists d w', ClientSession.session_id self w = Returns d w') /\
      (b = false <->
       exists d w', ClientSession._use_lsid self w = Returns d w')) /\
  ClientSession.client self w = Returns (_client (sessions w self)) w /\
  ClientSession.options self w = Returns (_options (sessions w self)) w /\
  exists w1,
    end_of_life explicit self w = Returns tt w1 /\
    ClientSession.has_ended self w1 = Returns true w1 /\
    ClientSession.session_id self w1 =
      Raises (InvalidOperation "Cannot use ended session") w1 /\
    ClientSession._use_lsid self w1 =
      Raises (InvalidOperation "Cannot use ended session") w1 /\
    ClientSession.client self w1 = Returns (_client (sessions w self)) w1 /\
    ClientSession.options self w1 = Returns (_options (sessions w self)) w1.
Proof.
  split; [| split; [reflexivity | split; [reflexivity |]]].
  - destruct (_server_session (sessions w self)) as [s |] eqn:Hs.
    + exists false.
      assert (Hid : ClientSession.session_id self w =
                    Returns (session_id (heap w s)) w).
      { unfold ClientSession.session_id, bind at 1, ClientSession.self_obj.
        rewrite Hs. reflexivity. }
      assert (Huse : ClientSession._use_lsid self w =
                     _ServerSession.use_lsid s w).
      { unfold ClientSession._use_lsid, bind at 1, ClientSession.self_obj.
        rewrite Hs. reflexivity. }
      rewrite Hid, Huse, use_lsid_run.
      split.
      { unfold ClientSession.has_ended, bind, ClientSession.self_obj, ret.
        rewrite Hs. reflexivity. }
      repeat split; intro H; try discriminate; try reflexivity.
      * eexists. eexists. reflexivity.
      * eexists. eexists. reflexivity.
    + exists true.
      destruct (ended_handle self explicit w Hs) as (_ & Hb & Hid & Huse).
      rewrite Hid, Huse. split; [assumption |].
      repeat split; intro H; try discriminate; try reflexivity.
      * destruct H as (d & w' & H). discriminate.
      * destruct H as (d & w' & H). discriminate.
  - destruct (end_of_life_run self explicit w)
      as (w1 & Hend & Hnone & Hc & Ho & _).
    exists w1. split; [assumption |].
    destruct (ended_handle self explicit w1 Hnone) as (_ & Hb & Hid & Huse).
    repeat split; try assumption.
    + unfold ClientSession.client, bind, ClientSession.self_obj, ret.
      rewrite Hc. reflexivity.
    + unfold ClientSession.options, bind, ClientSession.self_obj, ret.
      rewrite Ho. reflexivity.
Qed.

(** * Further properties *)

(** ** The shape of the world after a pool method *)

Lemma sweep_stops_ticks clk h m (kept : list loc) (n0 n1 : nat) :
  sweep_stops clk h m kept n0 n1 -> (n0 <= n1 <= S n0)%nat.
Proof.
  intros [[_ Hn] | (front & s & _ & _ & Hn)]; lia.
Qed.

Lemma sweep_stops_nonempty clk h m (kept : list loc) (n0 n1 : nat) :
  sweep_stops clk h m kept n0 n1 -> n1 = S n0 -> kept <> [].
Proof.
  intros [[_ Hn] | (front & s & Hk & _ & _)] Hn1 Hnil; [lia |].
  rewrite Hk in Hnil. destruct front; discriminate.
Qed.

Lemma get_shape (m : Minutes) (w : World) :
  exists n,
    (ticks w <= n <= ticks w + List.length (pool w) + 1)%nat /\
    ((exists pre r rest post k,
         pool w = pre ++ r :: rest ++ post /\
         (ticks w <= k < n)%nat /\
         stale_at (clock w) (heap w) m k r = false /\
         _ServerSessionPool.get_server_session m w =
           Returns r (set_ticks (set_pool w rest) n))
     \/
     _ServerSessionPool.get_server_session m w =
       Returns (next_loc w) (after_mint (set_ticks (set_pool w []) n))).
Proof.
  rewrite get_server_session_run. cbv zeta.
  destruct (sweep_pool (clock w) (heap w) m (pool w) (ticks w))
    as (kept & swept & Hp & _ & Hstop & Hkept).
  rewrite Hkept.
  apply sweep_stops_ticks in Hstop.
  assert (Hlen : List.length (pool w) =
                 (List.length kept + List.length swept)%nat)
    by (rewrite Hp; apply length_app).
  destruct (scan_spec (clock w) (heap w) m kept
              (snd (sweep (clock w) (heap w) m (ticks w) (rev (pool w)))))
    as [(d & s & r & Hk & _ & Hs & Hscan) | (_ & Hscan)];
    rewrite Hscan; cbn [fst snd].
  - assert (Hlk : List.length kept = (List.length d + S (List.length r))%nat)
      by (rewrite Hk, length_app; reflexivity).
    eexists. split; [| left; exists d, s, r, swept; eexists;
                       split; [| split; [| split; [exact Hs | reflexivity]]]].
    + lia.
    + rewrite Hp, Hk, <- app_assoc. reflexivity.
    + lia.
  - eexists. split; [| right; reflexivity]. lia.
Qed.

Lemma return_shape (s : loc) (m : Minutes) (w : World) :
  exists kept swept n,
    pool w = kept ++ swept /\
    (ticks w <= n <= ticks w + List.length swept + 1)%nat /\
    _ServerSessionPool.return_server_session s m w =
      Returns tt
        (set_ticks
           (set_pool w (if stale_at (clock w) (heap w) m n s
                        then kept else s :: kept))
           (S n)).
Proof.
  rewrite return_server_session_run. cbv zeta.
  destruct (sweep_pool (clock w) (heap w) m (pool w) (ticks w))
    as (kept & swept & Hp & _ & Hstop & Hkept).
  rewrite Hkept. apply sweep_stops_ticks in Hstop.
  exists kept, swept. eexists.
  split; [exact Hp |]. split; [| reflexivity]. lia.
Qed.

Lemma clear_stale_shape (m : Minutes) (w : World) :
  exists kept swept n,
    pool w = kept ++ swept /\
    (ticks w <= n <= ticks w + List.length swept + 1)%nat /\
    _ServerSessionPool._clear_stale m w =
      Returns tt (set_ticks (set_pool w kept) n).
Proof.
  rewrite clear_stale_run.
  destruct (sweep_pool (clock w) (heap w) m (pool w) (ticks w))
    as (kept & swept & Hp & _ & Hstop & Hkept).
  rewrite Hkept. apply sweep_stops_ticks in Hstop.
  exists kept, swept. eexists.
  split; [exact Hp |]. split; [| reflexivity]. lia.
Qed.

Lemma release_shape (c : MongoClient) (s : loc) (lock : bool) (w : World) :
  exists p n kept swept,
    _return_server_session c s lock w =
      Returns tt (set_ticks (set_pool w p) n) /\
    (ticks w <= n)%nat /\
    pool w = kept ++ swept /\
    (p = s :: kept \/ p = kept).
Proof.
  destruct lock; unfold _return_server_session.
  - destruct (return_shape s (client_session_timeout_minutes c) w)
      as (kept & swept & n & Hp & Hn & Hr).
    rewrite Hr. eexists. eexists. exists kept, swept.
    split; [reflexivity |]. split; [lia |]. split; [assumption |].
    destruct (stale_at (clock w) (heap w)
                (client_session_timeout_minutes c) n s); auto.
  - exists (s :: pool w), (ticks w), (pool w), [].
    split; [reflexivity |]. split; [lia |].
    split; [symmetry; apply app_nil_r |]. left. reflexivity.
Qed.

(** ** One call, any call *)

Lemma advances_refl (w : World) : advances w w.
Proof.
  unfold advances.
  split; [reflexivity |]. split; [lia |]. split; [lia |]. split.
  - intros a Ha. split; [reflexivity | left; reflexivity].
  - intros a Ha. lia.
Qed.

Lemma advances_trans (w w1 w2 : World) :
  advances w w1 -> advances w1 w2 -> advances w w2.
Proof.
  intros (Hc & Ht & Hn & Hold & Hnew) (Hc' & Ht' & Hn' & Hold' & Hnew').
  unfold advances. rewrite Hc' in *. rewrite Hc in *.
  split; [reflexivity |]. split; [lia |]. split; [lia |]. split.
  - intros a Ha.
    destruct (Hold a Ha) as [Hid Hlu].
    destruct (Hold' a) as [Hid' Hlu']; [lia |].
    split; [congruence |].
    destruct Hlu' as [Hsame | (k & Hk & Hlast)].
    + destruct Hlu as [Hsame0 | (k & Hk & Hlast)].
      * left. congruence.
      * right. exists k. split; [lia | congruence].
    + right. exists k. split; [lia | assumption].
  - intros a Ha.
    destruct (Nat.lt_ge_cases a (next_loc w1)) as [Hlt | Hge].
    + destruct (Hnew a) as (k0 & Hk0 & Hl0); [lia |].
      destruct (Hold' a Hlt) as [_ [Hsame | (k & Hk & Hlast)]].
      * exists k0. split; [lia | congruence].
      * exists k. split; [lia | assumption].
    + destruct (Hnew' a) as (k & Hk & Hlast); [lia |].
      exists k. split; [lia | assumption].
Qed.

Lemma advances_frame (w w' : World) :
  clock w' = clock w -> (ticks w <= ticks w')%nat ->
  next_loc w' = next_loc w -> heap w' = heap w ->
  advances w w'.
Proof.
  intros Hc Ht Hn Hh. unfold advances. rewrite Hc, Hn, Hh.
  split; [reflexivity |]. split; [lia |]. split; [lia |]. split.
  - intros a Ha. split; [reflexivity | left; reflexivity].
  - intros a Ha. lia.
Qed.

Lemma advances_mint (w : World) : advances w (after_mint w).
Proof.
  unfold advances, after_mint. cbn [clock ticks next_loc heap].
  split; [reflexivity |]. split; [lia |]. split; [lia |]. split.
  - intros a Ha. unfold upd.
    replace (Nat.eqb a (next_loc w)) with false
      by (symmetry; apply Nat.eqb_neq; lia).
    split; [reflexivity | left; reflexivity].
  - intros a Ha. assert (a = next_loc w) by lia. subst a.
    unfold upd. rewrite Nat.eqb_refl.
    exists (ticks w). split; [lia | reflexivity].
Qed.

Lemma advances_use_lsid (s : loc) (w : World) :
  advances w
    (set_ticks
       (set_heap w
          (upd (heap w) s
             (mkServerSession (session_id (heap w s)) (clock w (ticks w)))))
       (S (ticks w))).
Proof.
  unfold advances. cbn [clock ticks next_loc heap set_ticks set_heap].
  split; [reflexivity |]. split; [lia |]. split; [lia |]. split.
  - intros a Ha. unfold upd. destruct (Nat.eqb a s) eqn:E.
    + apply Nat.eqb_eq in E. subst a. split; [reflexivity |].
      right. exists (ticks w). split; [lia | reflexivity].
    + split; [reflexivity | left; reflexivity].
  - intros a Ha. lia.
Qed.

Lemma get_advances (m : Minutes) (w : World) :
  exists r w',
    _ServerSessionPool.get_server_session m w = Returns r w' /\
    advances w w' /\ sessions w' = sessions w.
Proof.
  destruct (get_shape m w)
    as (n & Hn & [(pre & r & rest & post & k & _ & _ & _ & Hg) | Hg]);
    rewrite Hg; eexists; eexists; (split; [reflexivity |]).
  - split; [| reflexivity]. apply advances_frame; try reflexivity;
      cbn [ticks set_ticks set_pool set_sessions]; lia.
  - split; [| reflexivity].
    eapply advances_trans; [| apply advances_mint].
    apply advances_frame; try reflexivity;
      cbn [ticks set_ticks set_pool set_sessions]; lia.
Qed.

Lemma end_session_shape (self : loc) (lock : bool) (w : World) :
  exists w',
    ClientSession._end_session self lock w = Returns tt w' /\
    advances w w' /\
    (forall x, sessions w' x = sessions w x \/
               sessions w' x = ended (sessions w x)).
Proof.
  rewrite end_session_run.
  destruct (_server_session (sessions w self)) as [s |].
  - destruct (release_shape (_client (sessions w self)) s lock w)
      as (p & n & kept & swept & Hr & Hn & _ & _).
    rewrite Hr. eexists. split; [reflexivity |]. split.
    + apply advances_frame; try reflexivity;
      cbn [ticks set_ticks set_pool set_sessions]; assumption.
    + intro x. cbn [sessions set_sessions set_ticks set_pool].
      unfold upd. destruct (Nat.eqb x self) eqn:E.
      * apply Nat.eqb_eq in E. subst x. right. reflexivity.
      * left. reflexivity.
  - exists w. split; [reflexivity |]. split; [apply advances_refl |].
    intro x. left. reflexivity.
Qed.

Lemma session_id_run (self : loc) (w : World) :
  ClientSession.session_id self w =
  match _server_session (sessions w self) with
  | Some s => Returns (session_id (heap w s)) w
  | None => Raises (InvalidOperation "Cannot use ended session") w
  end.
Proof.
  unfold ClientSession.session_id, bind at 1, ClientSession.self_obj.
  destruct (_server_session (sessions w self)); reflexivity.
Qed.

Lemma handle_use_lsid_run (self : loc) (w : World) :
  ClientSession._use_lsid self w =
  match _server_session (sessions w self) with
  | Some s => _ServerSession.use_lsid s w
  | None => Raises (InvalidOperation "Cannot use ended session") w
  end.
Proof.
  unfold ClientSession._use_lsid, bind at 1, ClientSession.self_obj.
  destruct (_server_session (sessions w self)); reflexivity.
Qed.

Lemma perform_step (c : Call) (w : World) :
  exists w',
    (perform c w = Returns tt w' \/
     (perform c w =
        Raises (InvalidOperation "Cannot use ended session") w' /\
      w' = w /\
      exists self,
        (c = call_session_id self \/ c = call__use_lsid self) /\
        _server_session (sessions w self) = None)) /\
    advances w w' /\
    (forall self, initialises self c = false ->
       sessions w' self = sessions w self \/
       sessions w' self = ended (sessions w self)).
Proof.
  destruct c; cbn [perform initialises].
  - (* _ServerSession() *)
    exists (after_mint w). split; [left; reflexivity |].
    split; [apply advances_mint |]. intros; left; reflexivity.
  - (* timed_out *)
    exists (set_ticks w (S (ticks w))). split; [left; reflexivity |].
    split; [| intros; left; reflexivity].
    apply advances_frame; try reflexivity;
      cbn [ticks set_ticks set_pool set_sessions]; lia.
  - (* use_lsid *)
    unfold forget, bind. rewrite use_lsid_run.
    eexists. split; [left; reflexivity |].
    split; [apply advances_use_lsid |]. intros; left; reflexivity.
  - (* get_server_session *)
    destruct (get_advances m w) as (r & w' & Hg & Ha & Hs).
    exists w'. unfold forget, bind. rewrite Hg.
    split; [left; reflexivity |]. split; [assumption |].
    intros; left; rewrite Hs; reflexivity.
  - (* return_server_session *)
    destruct (return_shape s m w) as (kept & swept & n & _ & Hn & Hr).
    rewrite Hr. eexists. split; [left; reflexivity |].
    split; [| intros; left; reflexivity].
    apply advances_frame; try reflexivity;
      cbn [ticks set_ticks set_pool set_sessions]; lia.
  - (* return_server_session_no_lock *)
    exists (set_pool w (s :: pool w)). split; [left; reflexivity |].
    split; [| intros; left; reflexivity].
    apply advances_frame; try reflexivity;
      cbn [ticks set_ticks set_pool set_sessions]; lia.
  - (* _clear_stale *)
    destruct (clear_stale_shape m w) as (kept & swept & n & _ & Hn & Hr).
    rewrite Hr. eexists. split; [left; reflexivity |].
    split; [| intros; left; reflexivity].
    apply advances_frame; try reflexivity;
      cbn [ticks set_ticks set_pool set_sessions]; lia.
  - (* ClientSession.__init__ *)
    eexists. split; [left; reflexivity |].
    split; [apply advances_frame; try reflexivity; cbn; lia |].
    intros x Hx. left. cbn [sessions set_sessions]. unfold upd.
    destruct (Nat.eqb x self) eqn:E; [| reflexivity].
    apply Nat.eqb_eq in E. subst x. rewrite Nat.eqb_refl in Hx.
    discriminate.
  - (* end_session *)
    destruct (end_session_shape self true w) as (w' & He & Ha & Hs).
    exists w'. split; [left; exact He |]. split; [assumption |].
    intros; apply Hs.
  - (* _end_session *)
    destruct (end_session_shape self lock w) as (w' & He & Ha & Hs).
    exists w'. split; [left; exact He |]. split; [assumption |].
    intros; apply Hs.
  - (* __enter__ *)
    exists w. split; [left; reflexivity |].
    split; [apply advances_refl |]. intros; left; reflexivity.
  - (* __exit__ *)
    destruct (end_session_shape self true w) as (w' & He & Ha & Hs).
    exists w'. split; [left; exact He |]. split; [assumption |].
    intros; apply Hs.
  - (* client *)
    exists w. split; [left; reflexivity |].
    split; [apply advances_refl |]. intros; left; reflexivity.
  - (* options *)
    exists w. split; [left; reflexivity |].
    split; [apply advances_refl |]. intros; left; reflexivity.
  - (* session_id *)
    exists w. split; [| split; [apply advances_refl |
                               intros; left; reflexivity]].
    unfold forget, bind. rewrite session_id_run.
    destruct (_server_session (sessions w self)) as [s |] eqn:Hs.
    + left. reflexivity.
    + right. split; [reflexivity |]. split; [reflexivity |].
      exists self. split; [left; reflexivity | assumption].
  - (* has_ended *)
    exists w. split; [left; reflexivity |].
    split; [apply advances_refl |]. intros; left; reflexivity.
  - (* _use_lsid *)
    unfold forget, bind. rewrite handle_use_lsid_run.
    destruct (_server_session (sessions w self)) as [s |] eqn:Hs.
    + rewrite use_lsid_run. eexists. split; [left; reflexivity |].
      split; [apply advances_use_lsid |]. intros; left; reflexivity.
    + exists w. split.
      * right. split; [reflexivity |]. split; [reflexivity |].
        exists self. split; [right; reflexivity | assumption].
      * split; [apply advances_refl |]. intros; left; reflexivity.
Qed.

Lemma perform_all_advances (cs : list Call) :
  forall w, exists w', perform_all cs w = Some w' /\ advances w w'.
Proof.
  induction cs as [| c cs IH]; intro w.
  - exists w. split; [reflexivity | apply advances_refl].
  - destruct (perform_step c w) as (w1 & Hout & Hadv & _).
    destruct (IH w1) as (w' & Hall & Hadv').
    exists w'. split; [| eapply advances_trans; eassumption].
    cbn [perform_all].
    destruct Hout as [Hr | (Hr & _)]; rewrite Hr; assumption.
Qed.

(** X1: Every method ends, and the only exception the module raises is
    [InvalidOperation("Cannot use ended session")], from [session_id] or
    [_use_lsid] on a handle without a record; no [IndexError] escapes the
    deque operations. *)
Theorem only_invalid_operation (c : Call) (w : World) :
  (exists w', perform c w = Returns tt w') \/
  (perform c w = Raises (InvalidOperation "Cannot use ended session") w /\
   exists self,
     (c = call_session_id self \/ c = call__use_lsid self) /\
     _server_session (sessions w self) = None).
Proof.
  destruct (perform_step c w) as (w' & [Hr | (Hr & Hw & Hself)] & _).
  - left. exists w'. assumption.
  - right. subst w'. split; assumption.
Qed.

(** X2: Along any sequence of calls, on a clock that never runs backwards and
    from a world where every [last_use] is a past reading: every call
    ends, every [last_use] stays a past reading, and a record that existed
    at the start keeps its [session_id] and never has its [last_use]
    lowered. *)
Theorem last_use_never_decreases (cs : list Call) (w : World) :
  monotone (clock w) ->
  timestamps_ok w ->
  exists w',
    perform_all cs w = Some w' /\
    timestamps_ok w' /\
    forall a, (a < next_loc w)%nat ->
      session_id (heap w' a) = session_id (heap w a) /\
      last_use (heap w a) <= last_use (heap w' a).
Proof.
  intros Hmono Hok.
  destruct (perform_all_advances cs w)
    as (w' & Hall & Hc & Ht & Hn & Hold & Hnew).
  exists w'. split; [assumption |]. split.
  - intros a Ha. rewrite Hc.
    destruct (Nat.lt_ge_cases a (next_loc w)) as [Hlt | Hge].
    + destruct (Hold a Hlt) as [_ [Hsame | (k & Hk & Hlast)]].
      * destruct (Hok a Hlt) as (k & Hk & Hlast).
        exists k. split; [lia | congruence].
      * exists k. split; [lia | assumption].
    + destruct (Hnew a) as (k & Hk & Hlast); [lia |].
      exists k. split; [lia | assumption].
  - intros a Ha. destruct (Hold a Ha) as [Hid [Hsame | (k & Hk & Hlast)]].
    + split; [assumption |]. rewrite Hsame. apply Qle_refl.
    + split; [assumption |].
      destruct (Hok a Ha) as (k0 & Hk0 & Hlast0).
      rewrite Hlast, Hlast0. apply Hmono. lia.
Qed.

Lemma ramp_monotone : monotone ramp.
Proof.
  intros i j Hij. unfold ramp, Qle. cbn [Qnum Qden inject_Z]. lia.
Qed.

Lemma last_use_never_decreases_witness :
  monotone (clock (used_world [0%nat])) /\
  timestamps_ok (used_world [0%nat]) /\
  exists w',
    perform_all [call_use_lsid 0%nat; call_get_server_session 30;
                 call_use_lsid 0%nat] (used_world [0%nat]) = Some w' /\
    timestamps_ok w' /\
    forall a, (a < next_loc (used_world [0%nat]))%nat ->
      session_id (heap w' a) = session_id (heap (used_world [0%nat]) a) /\
      last_use (heap (used_world [0%nat]) a) <= last_use (heap w' a).
Proof.
  assert (Hok : timestamps_ok (used_world [0%nat])).
  { intros a _. exists 0%nat. split; [simpl; lia | reflexivity]. }
  split; [exact ramp_monotone |]. split; [exact Hok |].
  exact (last_use_never_decreases
           [call_use_lsid 0%nat; call_get_server_session 30;
            call_use_lsid 0%nat] (used_world [0%nat]) ramp_monotone Hok).
Defined.

Lemma perform_all_handle (cs : list Call) (self : loc) :
  forall w,
    forallb (fun c => negb (initialises self c)) cs = true ->
    exists w',
      perform_all cs w = Some w' /\
      _client (sessions w' self) = _client (sessions w self) /\
      _options (sessions w' self) = _options (sessions w self) /\
      _authset (sessions w' self) = _authset (sessions w self) /\
      (_server_session (sessions w' self) = _server_session (sessions w self)
       \/ _server_session (sessions w' self) = None).
Proof.
  induction cs as [| c cs IH]; intros w Hcs.
  - exists w. repeat split. left. reflexivity.
  - cbn [forallb] in Hcs. apply andb_true_iff in Hcs.
    destruct Hcs as [Hc Hcs]. apply negb_true_iff in Hc.
    destruct (perform_step c w) as (w1 & Hout & _ & Hs).
    destruct (IH w1 Hcs) as (w' & Hall & Hcl & Hop & Hau & Hss).
    exists w'. split.
    { cbn [perform_all].
      destruct Hout as [Hr | (Hr & _)]; rewrite Hr; assumption. }
    rewrite Hcl, Hop, Hau.
    destruct (Hs self Hc) as [Hsame | Hended].
    + rewrite Hsame in *. repeat split. assumption.
    + rewrite Hended in *. repeat split.
      right. destruct Hss as [Hss | Hss]; assumption.
Qed.

(** X3: Along any sequence of calls that does not run [__init__] again on a
    handle, every call ends, the handle keeps its client, its options and
    its set, and its record is the one it had or none: a handle never
    takes a record, so one that has ended stays ended. *)
Theorem handle_only_loses_its_record (cs : list Call) (self : loc) :
  forall w,
    forallb (fun c => negb (initialises self c)) cs = true ->
    exists w',
      perform_all cs w = Some w' /\
      _client (sessions w' self) = _client (sessions w self) /\
      _options (sessions w' self) = _options (sessions w self) /\
      _authset (sessions w' self) = _authset (sessions w self) /\
      (_server_session (sessions w' self) = _server_session (sessions w self)
       \/ _server_session (sessions w' self) = None).
Proof. exact (perform_all_handle cs self). Qed.

Lemma handle_only_loses_its_record_witness :
  forallb (fun c => negb (initialises 0%nat c))
    [call__use_lsid 0%nat; call_exit 0%nat; call_session_id 0%nat;
     call_init 1%nat (mkMongoClient 30) 2%nat SessionOptions_default []]
    = true /\
  exists w',
    perform_all
      [call__use_lsid 0%nat; call_exit 0%nat; call_session_id 0%nat;
       call_init 1%nat (mkMongoClient 30) 2%nat SessionOptions_default []]
      (used_world []) = Some w' /\
    _client (sessions w' 0%nat) = _client (sessions (used_world []) 0%nat) /\
    _options (sessions w' 0%nat) = _options (sessions (used_world []) 0%nat) /\
    _authset (sessions w' 0%nat) = _authset (sessions (used_world []) 0%nat) /\
    (_server_session (sessions w' 0%nat) =
       _server_session (sessions (used_world []) 0%nat)
     \/ _server_session (sessions w' 0%nat) = None).
Proof.
  split; [reflexivity |].
  apply (handle_only_loses_its_record
           [call__use_lsid 0%nat; call_exit 0%nat; call_session_id 0%nat;
            call_init 1%nat (mkMongoClient 30) 2%nat SessionOptions_default []]
           0%nat (used_world [])).
  reflexivity.
Defined.

(** ** One owner for every record *)

Lemma holds_upd (w0 : World) (ss : loc -> ClientSessionObj)
    (self : loc) (o : ClientSessionObj) (c x : loc) :
  holds (set_sessions w0 (upd ss self o)) c x ->
  (c = self /\ _server_session o = Some x) \/
  (c <> self /\ _server_session (ss c) = Some x).
Proof.
  unfold holds. cbn [sessions set_sessions]. unfold upd.
  destruct (Nat.eqb c self) eqn:E; intro H.
  - left. apply Nat.eqb_eq in E. split; assumption.
  - right. apply Nat.eqb_neq in E. split; assumption.
Qed.

(** X5: The end of a handle keeps the one-owner discipline: the record it held
    goes to the pool or is dropped, and the handle holds nothing. *)
Theorem end_keeps_ownership (w : World) (self : loc) (lock : bool) :
  ownership w ->
  exists w',
    ClientSession._end_session self lock w = Returns tt w' /\
    ownership w' /\
    _server_session (sessions w' self) = None.
Proof.
  intros (Hnd & Hpool & Halloc & Huniq).
  rewrite end_session_run.
  destruct (_server_session (sessions w self)) as [s |] eqn:Hs.
  - destruct (release_shape (_client (sessions w self)) s lock w)
      as (p & n & kept & swept & Hr & _ & Hp & Hin).
    rewrite Hr. eexists. split; [reflexivity |].
    cbn [sessions set_sessions set_ticks set_pool].
    assert (Hkept : forall x, In x kept -> In x (pool w)).
    { intros x Hx. rewrite Hp. apply in_or_app. left. assumption. }
    assert (Hnot : ~ In s kept).
    { intro Hx. apply (proj2 (Hpool s (Hkept s Hx)) self). exact Hs. }
    assert (Hndk : NoDup kept).
    { rewrite Hp in Hnd. apply NoDup_app_remove_r in Hnd. assumption. }
    split; [| unfold upd; rewrite Nat.eqb_refl; reflexivity].
    unfold ownership.
    cbn [pool next_loc set_sessions set_ticks set_pool].
    split; [| split; [| split]].
    + destruct Hin as [Hin | Hin]; rewrite Hin; [| assumption].
      constructor; assumption.
    + intros x Hx. split.
      * destruct Hin as [Hin | Hin]; rewrite Hin in Hx.
        -- destruct Hx as [Hx | Hx].
           ++ subst x. apply (Halloc self). exact Hs.
           ++ apply Hpool, Hkept, Hx.
        -- apply Hpool, Hkept, Hx.
      * intros c Hc. apply holds_upd in Hc.
        destruct Hc as [[_ Hc] | [Hne Hc]]; [discriminate |].
        assert (Hxs : x = s \/ In x kept)
          by (destruct Hin as [Hin | Hin]; rewrite Hin in Hx;
              [destruct Hx; auto | auto]).
        destruct Hxs as [Hxs | Hxs].
        -- subst x. apply Hne. apply (Huniq c self s); assumption.
        -- apply (proj2 (Hpool x (Hkept x Hxs)) c). exact Hc.
    + intros c x Hc. apply holds_upd in Hc.
      destruct Hc as [[_ Hc] | [_ Hc]]; [discriminate |].
      apply (Halloc c). exact Hc.
    + intros c c' x Hc Hc'. apply holds_upd in Hc. apply holds_upd in Hc'.
      destruct Hc as [[_ Hc] | [_ Hc]]; [discriminate |].
      destruct Hc' as [[_ Hc'] | [_ Hc']]; [discriminate |].
      apply (Huniq c c' x); assumption.
  - exists w. split; [reflexivity |].
    split; [| assumption].
    exact (conj Hnd (conj Hpool (conj Halloc Huniq))).
Qed.

Lemma sample_ownership : ownership (sample_world ramp [0%nat; 1%nat]).
Proof.
  assert (Hh : forall c s, holds (sample_world ramp [0%nat; 1%nat]) c s ->
                           c = 0%nat /\ s = 3%nat).
  { intros c s. unfold holds. simpl.
    destruct c; simpl; intro H; [| discriminate].
    injection H as H. split; [reflexivity | symmetry; assumption]. }
  unfold ownership. split; [| split; [| split]].
  - simpl. repeat constructor; simpl; intuition discriminate.
  - intros s Hs. split.
    + simpl in *. lia.
    + intros c Hc. apply Hh in Hc. simpl in Hs. lia.
  - intros c s Hc. apply Hh in Hc. simpl. lia.
  - intros c c' s Hc Hc'. apply Hh in Hc. apply Hh in Hc'. lia.
Qed.

Lemma end_keeps_ownership_witness :
  ownership (sample_world ramp [0%nat; 1%nat]) /\
  exists w',
    ClientSession._end_session 0%nat true (sample_world ramp [0%nat; 1%nat])
      = Returns tt w' /\
    ownership w' /\
    _server_session (sessions w' 0%nat) = None.
Proof.
  split; [exact sample_ownership |].
  exact (end_keeps_ownership (sample_world ramp [0%nat; 1%nat]) 0%nat true
           sample_ownership).
Defined.

(** X6: Taking a record with [get_server_session] and giving it to a handle
    that holds none with [ClientSession.__init__] keeps the one-owner
    discipline: the handle holds the record, the record is not in the pool
    any more, and [session_id] answers with the record's document. *)
Theorem start_keeps_ownership (w : World) (m : Minutes) (self : loc)
    (c : MongoClient) (o : SessionOptions) (a : AuthSet) :
  ownership w ->
  _server_session (sessions w self) = None ->
  exists r w',
    (r <- _ServerSessionPool.get_server_session m ;;
     ClientSession.__init__ self c r o a ;;
     ret r) w = Returns r w' /\
    ownership w' /\
    holds w' self r /\
    ~ In r (pool w') /\
    ClientSession.session_id self w' = Returns (session_id (heap w' r)) w'.
Proof.
  intros (Hnd & Hpool & Halloc & Huniq) Hself.
  destruct (get_shape m w)
    as (n & _ & [(pre & r & rest & post & k & Hp & _ & _ & Hg) | Hg]).
  - exists r. unfold bind at 1. rewrite Hg. eexists.
    split; [reflexivity |].
    assert (Hnd' : NoDup (r :: rest ++ post))
      by (rewrite Hp in Hnd; apply NoDup_app_remove_l in Hnd; assumption).
    inversion Hnd' as [| x l Hnotin Hnd'' E]. subst x l.
    assert (Hrest : forall x, In x rest -> In x (pool w)).
    { intros x Hx. rewrite Hp. apply in_or_app. right. right.
      apply in_or_app. left. assumption. }
    assert (Hr : In r (pool w)).
    { rewrite Hp. apply in_or_app. right. left. reflexivity. }
    assert (Hnr : ~ In r rest).
    { intro Hx. apply Hnotin. apply in_or_app. left. assumption. }
    cbn [sessions pool set_sessions set_ticks set_pool].
    split; [| split; [| split]].
    + unfold ownership.
      cbn [pool next_loc sessions set_sessions set_ticks set_pool].
      split; [| split; [| split]].
      * apply NoDup_app_remove_r in Hnd''. assumption.
      * intros x Hx. split; [apply Hpool, Hrest, Hx |].
        intros c0 Hc. apply holds_upd in Hc.
        destruct Hc as [[_ Hc] | [_ Hc]].
        -- injection Hc as Hc. subst x. contradiction.
        -- apply (proj2 (Hpool x (Hrest x Hx)) c0). exact Hc.
      * intros c0 x Hc. apply holds_upd in Hc.
        destruct Hc as [[_ Hc] | [_ Hc]].
        -- injection Hc as Hc. subst x. apply Hpool, Hr.
        -- apply (Halloc c0). exact Hc.
      * intros c0 c1 x Hc0 Hc1.
        apply holds_upd in Hc0. apply holds_upd in Hc1.
        destruct Hc0 as [[E0 Hc0] | [N0 Hc0]];
          destruct Hc1 as [[E1 Hc1] | [N1 Hc1]].
        -- congruence.
        -- injection Hc0 as Hc0. subst x.
           exfalso. apply (proj2 (Hpool r Hr) c1). exact Hc1.
        -- injection Hc1 as Hc1. subst x.
           exfalso. apply (proj2 (Hpool r Hr) c0). exact Hc0.
        -- apply (Huniq c0 c1 x); assumption.
    + unfold holds. cbn [sessions set_sessions]. unfold upd.
      rewrite Nat.eqb_refl. reflexivity.
    + assumption.
    + rewrite session_id_run. cbn [sessions set_sessions]. unfold upd.
      rewrite Nat.eqb_refl. reflexivity.
  - exists (next_loc w). unfold bind at 1. rewrite Hg. eexists.
    split; [reflexivity |].
    cbn [sessions pool after_mint set_sessions set_ticks set_pool].
    split; [| split; [| split]].
    + unfold ownership.
      cbn [pool next_loc sessions after_mint set_sessions set_ticks
           set_pool].
      split; [constructor |]. split; [intros x [] |]. split.
      * intros c0 x Hc. apply holds_upd in Hc.
        destruct Hc as [[_ Hc] | [_ Hc]].
        -- injection Hc as Hc. subst x. lia.
        -- apply Nat.lt_lt_succ_r. apply (Halloc c0). exact Hc.
      * intros c0 c1 x Hc0 Hc1.
        apply holds_upd in Hc0. apply holds_upd in Hc1.
        destruct Hc0 as [[E0 Hc0] | [N0 Hc0]];
          destruct Hc1 as [[E1 Hc1] | [N1 Hc1]].
        -- congruence.
        -- injection Hc0 as Hc0. subst x.
           exfalso. apply (Nat.lt_irrefl (next_loc w)).
           apply (Halloc c1). exact Hc1.
        -- injection Hc1 as Hc1. subst x.
           exfalso. apply (Nat.lt_irrefl (next_loc w)).
           apply (Halloc c0). exact Hc0.
        -- apply (Huniq c0 c1 x); assumption.
    + unfold holds. cbn [sessions set_sessions]. unfold upd.
      rewrite Nat.eqb_refl. reflexivity.
    + intros [].
    + rewrite session_id_run. cbn [sessions set_sessions]. unfold upd.
      rewrite Nat.eqb_refl. reflexivity.
Qed.

Lemma start_keeps_ownership_witness :
  ownership (sample_world ramp [0%nat; 1%nat]) /\
  _server_session (sessions (sample_world ramp [0%nat; 1%nat]) 1%nat)
    = None /\
  exists r w',
    (r <- _ServerSessionPool.get_server_session 30 ;;
     ClientSession.__init__ 1%nat (mkMongoClient 30) r
       SessionOptions_default [] ;;
     ret r) (sample_world ramp [0%nat; 1%nat]) = Returns r w' /\
    ownership w' /\
    holds w' 1%nat r /\
    ~ In r (pool w') /\
    ClientSession.session_id 1%nat w' = Returns (session_id (heap w' r)) w'.
Proof.
  split; [exact sample_ownership |]. split; [reflexivity |].
  exact (start_keeps_ownership (sample_world ramp [0%nat; 1%nat]) 30 1%nat
           (mkMongoClient 30) SessionOptions_default []
           sample_ownership eq_refl).
Defined.

(** ** Giving back and taking again *)

(** X7: A record given back while it and the pooled records are fresh is the
    one the next [get_server_session] returns, and the pool is then what
    it was before the record was given back. *)
Theorem return_then_get (w : World) (s : loc) (m : Minutes) :
  fresh_between (clock w) (heap w) m (ticks w) (ticks w + 4)
                (s :: pool w) ->
  exists w',
    (_ServerSessionPool.return_server_session s m ;;
     _ServerSessionPool.get_server_session m) w = Returns s w' /\
    pool w' = pool w /\
    heap w' = heap w.
Proof.
  intro Hf.
  destruct (return_fresh w s m) as (w1 & E1 & P1 & C1 & H1 & T1).
  { eapply fresh_between_weaken; [exact Hf | lia | lia | apply incl_refl]. }
  destruct (get_fresh w1 s (pool w) m P1) as (w2 & E2 & P2 & C2 & H2 & T2).
  { rewrite P1, C1, H1.
    eapply fresh_between_weaken; [exact Hf | lia | lia | apply incl_refl]. }
  exists w2. unfold bind. rewrite E1, E2.
  split; [reflexivity |]. split; [assumption | congruence].
Qed.

Lemma return_then_get_witness :
  fresh_between (clock (sample_world ramp [0%nat; 1%nat]))
    (heap (sample_world ramp [0%nat; 1%nat])) 30
    (ticks (sample_world ramp [0%nat; 1%nat]))
    (ticks (sample_world ramp [0%nat; 1%nat]) + 4)
    (2%nat :: pool (sample_world ramp [0%nat; 1%nat])) /\
  exists w',
    (_ServerSessionPool.return_server_session 2%nat 30 ;;
     _ServerSessionPool.get_server_session 30)
      (sample_world ramp [0%nat; 1%nat]) = Returns 2%nat w' /\
    pool w' = pool (sample_world ramp [0%nat; 1%nat]) /\
    heap w' = heap (sample_world ramp [0%nat; 1%nat]).
Proof.
  assert (Hf : fresh_between (clock (sample_world ramp [0%nat; 1%nat]))
                 (heap (sample_world ramp [0%nat; 1%nat])) 30
                 (ticks (sample_world ramp [0%nat; 1%nat]))
                 (ticks (sample_world ramp [0%nat; 1%nat]) + 4)
                 (2%nat :: pool (sample_world ramp [0%nat; 1%nat]))).
  { intros s n _ Hn. apply stale_at_false.
    unfold sample_world, ramp, clock, heap, sample_obj, last_use, ticks in *.
    unfold Qle, Qminus, Qplus, Qopp, Qmult. cbn [Qnum Qden inject_Z].
    simpl in Hn. lia. }
  split; [exact Hf |].
  exact (return_then_get (sample_world ramp [0%nat; 1%nat]) 2%nat 30 Hf).
Defined.



(** X9: [get_server_session] never adds to the pool: what it leaves is a
    stretch of what it found, shorter unless the pool was empty; the record
    it returns was in the pool or is new; and it reads the clock at most
    [len(self) + 2] times. *)
Theorem get_only_removes (w : World) (m : Minutes) :
  exists r w' pre post,
    _ServerSessionPool.get_server_session m w = Returns r w' /\
    pool w = pre ++ pool w' ++ post /\
    (pool w = [] \/ (List.length (pool w') < List.length (pool w))%nat) /\
    (ticks w <= ticks w' <= ticks w + List.length (pool w) + 2)%nat /\
    (In r (pool w) \/ (r = next_loc w /\ pool w' = [])).
Proof.
  destruct (get_shape m w)
    as (n & Hn & [(pre & r & rest & post & k & Hp & _ & _ & Hg) | Hg]);
    rewrite Hg.
  - exists r. eexists. exists (pre ++ [r]), post.
    split; [reflexivity |]. cbn [pool ticks set_ticks set_pool].
    split; [rewrite <- app_assoc; exact Hp |].
    split; [| split; [lia |]].
    + right. rewrite Hp, length_app. cbn [List.length].
      rewrite length_app. lia.
    + left. rewrite Hp. apply in_or_app. right. left. reflexivity.
  - exists (next_loc w). eexists. exists (pool w), [].
    split; [reflexivity |].
    cbn [pool ticks after_mint set_ticks set_pool].
    split; [rewrite app_nil_r; reflexivity |].
    split; [| split; [lia | right; split; reflexivity]].
    destruct (pool w); [left; reflexivity | right; simpl; lia].
Qed.

(** ** The sweep *)

(** X10: [_clear_stale] looks at the right end only: when the rightmost record
    is not stale it reads the clock once and leaves the pool as it is,
    whatever the records to its left are. *)
Theorem clear_stale_stops_at_fresh (w : World) (m : Minutes)
    (front : list loc) (s : loc) :
  pool w = front ++ [s] ->
  stale_at (clock w) (heap w) m (ticks w) s = false ->
  _ServerSessionPool._clear_stale m w =
    Returns tt (set_ticks w (S (ticks w))).
Proof.
  intros Hp Hs. rewrite clear_stale_run, Hp, rev_app_distr.
  cbn [rev app sweep]. rewrite Hs. cbn [fst snd rev].
  rewrite rev_involutive. cbn [app]. rewrite <- Hp.
  destruct w; reflexivity.
Qed.

Lemma clear_stale_stops_at_fresh_witness :
  pool (aged_world still [2%nat; 0%nat]) = [2%nat] ++ [0%nat] /\
  stale_at (clock (aged_world still [2%nat; 0%nat]))
           (heap (aged_world still [2%nat; 0%nat])) 30
           (ticks (aged_world still [2%nat; 0%nat])) 0%nat = false /\
  stale_at (clock (aged_world still [2%nat; 0%nat]))
           (heap (aged_world still [2%nat; 0%nat])) 30
           (ticks (aged_world still [2%nat; 0%nat])) 2%nat = true /\
  _ServerSessionPool._clear_stale 30 (aged_world still [2%nat; 0%nat]) =
    Returns tt (set_ticks (aged_world still [2%nat; 0%nat]) 1).
Proof.
  split; [reflexivity |]. split; [reflexivity |]. split; [reflexivity |].
  apply (clear_stale_stops_at_fresh (aged_world still [2%nat; 0%nat]) 30
           [2%nat] 0%nat); reflexivity.
Defined.





(** ** Use and age *)

(** X12: [use_lsid] resets the age of a record: what [timed_out] answers
    right after it does not depend on the [last_use] the record had, and
    the answer is false when the timeout is a minute or more and the clock
    gave the same reading twice. *)
Theorem use_then_timed_out (w : World) (s : loc) (m : Minutes) (t0 : Time) :
  exists b w1 w2,
    (_ServerSession.use_lsid s ;; _ServerSession.timed_out s m) w =
      Returns b w1 /\
    (_ServerSession.use_lsid s ;; _ServerSession.timed_out s m)
      (set_heap w
         (upd (heap w) s (mkServerSession (session_id (heap w s)) t0))) =
      Returns b w2 /\
    ticks w1 = S (S (ticks w)) /\
    last_use (heap w1 s) = clock w (ticks w) /\
    last_use (heap w2 s) = clock w (ticks w) /\
    (b = false \/ m < 1 \/
     ~ clock w (S (ticks w)) == clock w (ticks w)).
Proof.
  unfold bind. rewrite !use_lsid_run, !timed_out_run.
  cbn [clock heap ticks set_ticks set_heap].
  assert (E : forall (h : loc -> ServerSessionObj) (d : Document),
             stale_at (clock w)
               (upd h s (mkServerSession d (clock w (ticks w))))
               m (S (ticks w)) s =
             Qgtb (clock w (S (ticks w)) - clock w (ticks w))
                  ((m - 1) * 60)).
  { intros h d. unfold stale_at, upd. rewrite Nat.eqb_refl. reflexivity. }
  rewrite !E.
  eexists. eexists. eexists.
  split; [reflexivity |]. split; [reflexivity |].
  cbn [clock heap ticks set_ticks set_heap].
  split; [reflexivity |].
  split; [unfold upd; rewrite Nat.eqb_refl; reflexivity |].
  split; [unfold upd; rewrite Nat.eqb_refl; reflexivity |].
  destruct (Qgtb (clock w (S (ticks w)) - clock w (ticks w))
                 ((m - 1) * 60)) eqn:Hb; [| left; reflexivity].
  right. unfold Qgtb in Hb. apply negb_true_iff in Hb.
  destruct (Qlt_le_dec m 1) as [Hm | Hm]; [left; exact Hm |].
  right. intro Heq.
  assert (Hle : clock w (S (ticks w)) - clock w (ticks w) <= (m - 1) * 60)
    by (rewrite Heq; lra).
  apply Qle_bool_iff in Hle. congruence.
Qed.

(** X13: A record found stale is found stale at every later reading of a clock
    that never runs backwards, as long as its [last_use] is not renewed. *)
Theorem stale_stays_stale (w w' : World) (s : loc) (m : Minutes) :
  monotone (clock w) ->
  clock w' = clock w ->
  (ticks w <= ticks w')%nat ->
  last_use (heap w' s) = last_use (heap w s) ->
  _ServerSession.timed_out s m w = Returns true (set_ticks w (S (ticks w))) ->
  _ServerSession.timed_out s m w' =
    Returns true (set_ticks w' (S (ticks w'))).
Proof.
  intros Hmono Hc Ht Hl Hstale.
  rewrite timed_out_run in *.
  injection Hstale as Hstale. f_equal.
  apply stale_at_true in Hstale. apply stale_at_true.
  rewrite Hc, Hl. pose proof (Hmono _ _ Ht) as Hle. lra.
Qed.

Lemma stale_stays_stale_witness :
  monotone (clock (aged_world ramp [2%nat])) /\
  clock (set_ticks (aged_world ramp [2%nat]) 7) =
    clock (aged_world ramp [2%nat]) /\
  (ticks (aged_world ramp [2%nat])
   <= ticks (set_ticks (aged_world ramp [2%nat]) 7))%nat /\
  last_use (heap (set_ticks (aged_world ramp [2%nat]) 7) 2%nat) =
    last_use (heap (aged_world ramp [2%nat]) 2%nat) /\
  _ServerSession.timed_out 2%nat 30 (aged_world ramp [2%nat]) =
    Returns true (set_ticks (aged_world ramp [2%nat]) 1) /\
  _ServerSession.timed_out 2%nat 30
    (set_ticks (aged_world ramp [2%nat]) 7) =
    Returns true (set_ticks (set_ticks (aged_world ramp [2%nat]) 7) 8).
Proof.
  split; [exact ramp_monotone |]. split; [reflexivity |].
  split; [simpl; lia |]. split; [reflexivity |]. split; [reflexivity |].
  apply (stale_stays_stale (aged_world ramp [2%nat])
           (set_ticks (aged_world ramp [2%nat]) 7) 2%nat 30);
    [exact ramp_monotone | reflexivity | simpl; lia | reflexivity
    | reflexivity].
Defined.

(** ** The handle in a [with] statement *)

(** X14: On every way out of the body of a [with] statement the handle is
    ended: when the body returns, its value is returned; when it raises,
    its exception goes on; in both cases [end_session] has run in the
    world the body left and the handle holds no record. *)
Theorem with_session_ends (A : Type) (self : loc) (body : loc -> M A)
    (w : World) :
  match body self w with
  | Returns a w1 =>
      exists w2,
        with_session self body w = Returns a w2 /\
        ClientSession.end_session self w1 = Returns tt w2 /\
        _server_session (sessions w2 self) = None
  | Raises e w1 =>
      exists w2,
        with_session self body w = Raises e w2 /\
        ClientSession.end_session self w1 = Returns tt w2 /\
        _server_session (sessions w2 self) = None
  | Diverges => with_session self body w = Diverges
  end.
Proof.
  unfold with_session, ClientSession.__enter__, ret.
  destruct (body self w) as [a w1 | e w1 |]; [| | reflexivity];
    destruct (end_of_life_run self true w1) as (w2 & Hend & Hnone & _);
    cbn [end_of_life] in Hend;
    exists w2; unfold bind, ClientSession.__exit__; rewrite Hend;
    repeat split; assumption.
Qed.

(** ** The identifier of a handle *)

(** X4: Along any sequence of calls that does not run [__init__] again on a
    handle holding an existing record, [session_id] on the handle either
    answers with the document the record had at the start or, once the
    handle has ended, raises [InvalidOperation]: the identifier of a
    session never changes. *)
Theorem session_id_is_stable (cs : list Call) (self s : loc) (w : World) :
  forallb (fun c => negb (initialises self c)) cs = true ->
  holds w self s ->
  (s < next_loc w)%nat ->
  exists w',
    perform_all cs w = Some w' /\
    (ClientSession.session_id self w' =
       Returns (session_id (heap w s)) w' \/
     ClientSession.session_id self w' =
       Raises (InvalidOperation "Cannot use ended session") w').
Proof.
  intros Hcs Hholds Halloc.
  destruct (perform_all_handle cs self w Hcs) as (w' & Hall & _ & _ & _ & Hss).
  destruct (perform_all_advances cs w) as (w'' & Hall' & _ & _ & _ & Hold & _).
  assert (w'' = w') by congruence. subst w''.
  exists w'. split; [assumption |]. rewrite session_id_run.
  destruct Hss as [Hss | Hss]; rewrite Hss.
  - left. unfold holds in Hholds. rewrite Hholds.
    rewrite (proj1 (Hold s Halloc)). reflexivity.
  - right. reflexivity.
Qed.

Lemma session_id_is_stable_witness :
  forallb (fun c => negb (initialises 0%nat c))
    [call__use_lsid 0%nat; call_get_server_session 30;
     call_new_server_session] = true /\
  holds (used_world [1%nat]) 0%nat 3%nat /\
  (3 < next_loc (used_world [1%nat]))%nat /\
  exists w',
    perform_all
      [call__use_lsid 0%nat; call_get_server_session 30;
       call_new_server_session] (used_world [1%nat]) = Some w' /\
    (ClientSession.session_id 0%nat w' =
       Returns (session_id (heap (used_world [1%nat]) 3%nat)) w' \/
     ClientSession.session_id 0%nat w' =
       Raises (InvalidOperation "Cannot use ended session") w').
Proof.
  split; [reflexivity |]. split; [reflexivity |]. split; [simpl; lia |].
  apply (session_id_is_stable
           [call__use_lsid 0%nat; call_get_server_session 30;
            call_new_server_session] 0%nat 3%nat (used_world [1%nat]));
    [reflexivity | reflexivity | simpl; lia].
Defined.
